(** * TrackHS reservation fetch client: a shallow embedding

    The development follows [fetch-reservations.js]: the [TrackHSClient]
    class (transport with cookie jar, login, bearer token, pagination,
    persistence) and the [main] orchestrator.

    Conventions of the embedding.
    - A JavaScript string is the [string] of the bytes of its UTF-8
      encoding. Every literal, separator and character class of the source
      is ASCII, so splitting and matching on bytes agrees with the source;
      the one exception is the class [\s], whose members beyond ASCII are
      given by their UTF-8 bytes.
    - Numbers reported by the remote API ([status], [total], [size]) are
      integers in [Z]. The source computes on doubles: [Z] agrees with it
      on the safe integers (below [2^53] in absolute value), where
      [Math.ceil (a / b)] is the exact ceiling of the quotient; statements
      that range over all counts assume them safe.
    - A method of the client is a computation over the client object and
      the outside world; [throw] is the outcome [Throw]. *)

From Stdlib Require Import List String Ascii ZArith Bool Lia DecimalString.
Import ListNotations.
Open Scope string_scope.
Open Scope Z_scope.

(** ** JavaScript values: truthiness and strings *)

(** [ToBoolean]: the values the client tests with [if (x)], [!x], [a && b]
    and [a || b]. *)
Class Truthy (A : Type) := truthy : A -> bool.

#[export] Instance truthy_bool : Truthy bool := fun b => b.
#[export] Instance truthy_Z : Truthy Z := fun n => negb (n =? 0).
#[export] Instance truthy_string : Truthy string :=
  fun s => match s with EmptyString => false | String _ _ => true end.
(** [undefined] and [null] are [None]. *)
#[export] Instance truthy_option {A} `{Truthy A} : Truthy (option A) :=
  fun o => match o with None => false | Some a => truthy a end.
(** An array is an object: always truthy, also when empty. *)
#[export] Instance truthy_array {A} : Truthy (list A) := fun _ => true.

(** [a || b] on strings that may be [undefined]. *)
Definition js_or (a b : option string) : option string :=
  if truthy a then a else b.

(** [s.split(sep)[0]] for a one-character separator: the text before the
    first [sep], the whole string when there is none. *)
Fixpoint split_head (sep : ascii) (s : string) : string :=
  match s with
  | EmptyString => EmptyString
  | String c s' =>
      if Ascii.eqb c sep then EmptyString else String c (split_head sep s')
  end.

(** [s.startsWith(p)] *)
Fixpoint startsWith (s p : string) {struct p} : bool :=
  match p with
  | EmptyString => true
  | String a p' =>
      match s with
      | EmptyString => false
      | String b s' => Ascii.eqb b a && startsWith s' p'
      end
  end.

(** [s.includes(sub)] *)
Fixpoint includes (s sub : string) : bool :=
  startsWith s sub
  || match s with
     | EmptyString => false
     | String _ s' => includes s' sub
     end.

(** [xs.join(sep)] *)
Definition join (sep : string) (xs : list string) : string :=
  String.concat sep xs.

(** Decimal rendering of a number inside a template literal. *)
Definition Z_to_string (n : Z) : string :=
  NilZero.string_of_int (Z.to_int n).

(** Does the character occur in the string? *)
Fixpoint has_char (c : ascii) (s : string) : bool :=
  match s with
  | EmptyString => false
  | String a s' => Ascii.eqb a c || has_char c s'
  end.

(** ** Transport: the cookie jar ([makeRequest], response callback) *)

(** [cookie.split("=")[0]] *)
Definition cookieName (cookie : string) : string := split_head "=" cookie.

(** [cookie.split(";")[0]] *)
Definition cookiePair (cookie : string) : string := split_head ";" cookie.

(** The body of [setCookies.forEach]: drop every held cookie that starts
    with the new cookie's name, then push the new [name=value] pair. *)
Definition storeCookie (cookies : list string) (cookie : string)
  : list string :=
  filter (fun c => negb (startsWith c (cookieName cookie))) cookies
  ++ [cookiePair cookie].

(** [setCookies.forEach(...)] over the [Set-Cookie] headers of one
    response, or over the headers of several responses in sequence. *)
Definition storeCookies (cookies : list string) (setCookies : list string)
  : list string :=
  fold_left storeCookie setCookies cookies.

(** A [Set-Cookie] value of the shape [name=value; attributes]: no [;]
    before the first [=]. *)
Definition pair_shaped (cookie : string) : bool :=
  negb (has_char ";" (cookieName cookie)).

(** ** Session establisher: the patterns of [extractSecurityToken] *)

(** A character class: [[abc]] or [[^abc]]. *)
Inductive charset :=
| OneOf (cs : list ascii)
| NoneOf (cs : list ascii).

Definition in_charset (k : charset) (c : ascii) : bool :=
  match k with
  | OneOf cs => existsb (Ascii.eqb c) cs
  | NoneOf cs => negb (existsb (Ascii.eqb c) cs)
  end.

(** A class whose members may take several bytes: each member is written
    as the bytes of its UTF-8 encoding. *)
Definition wideset := list string.

(** The pieces the four patterns are built from, in the order they are
    written. Repetitions are greedy, as in the source. *)
Inductive piece :=
| Lit (text : string)        (* literal text; every pattern carries flag [i] *)
| One (k : charset)          (* [k]  *)
| Star (k : charset)         (* [k*] *)
| Plus (w : wideset)         (* [w+], for the class [\s] *)
| Group (k : charset).       (* [(k+)], capture group 1 *)

Definition pattern := list piece.

(** Case folding of flag [i] on ASCII letters. *)
Definition lower (c : ascii) : ascii :=
  let n := nat_of_ascii c in
  if (Nat.leb 65 n && Nat.leb n 90)%nat then ascii_of_nat (n + 32)%nat else c.

(** Consume the literal [text] at the head of [s], ignoring letter case. *)
Fixpoint eat (text s : string) : option string :=
  match text with
  | EmptyString => Some s
  | String a text' =>
      match s with
      | EmptyString => None
      | String b s' =>
          if Ascii.eqb (lower a) (lower b) then eat text' s' else None
      end
  end.

(** Greedy repetition with backtracking: take as many characters of [k] as
    possible, and give them back one at a time while the rest of the
    pattern ([rest], told what was taken and where it resumes) fails. *)
Fixpoint greedy (k : charset) (rest : string -> string -> option string)
  (taken s : string) : option string :=
  match s with
  | EmptyString => rest taken s
  | String c s' =>
      if in_charset k c then
        match greedy k rest (taken ++ String c EmptyString) s' with
        | Some r => Some r
        | None => rest taken s
        end
      else rest taken s
  end.

(** Consume one member of [w] at the head of [s]. No member of [\s] is a
    letter, so flag [i] changes nothing here. *)
Fixpoint eat_member (w : wideset) (s : string) : option string :=
  match w with
  | [] => None
  | m :: w' =>
      match eat m s with
      | Some s' => Some s'
      | None => eat_member w' s
      end
  end.

(** Greedy repetition of the members of [w], with backtracking, for at
    most [n] members; [String.length s] of them are enough for [s], as a
    member of [\s] takes at least one byte. *)
Fixpoint greedy_members (n : nat) (w : wideset)
  (rest : string -> option string) (s : string) : option string :=
  match n with
  | O => rest s
  | S n' =>
      match eat_member w s with
      | Some s' =>
          match greedy_members n' w rest s' with
          | Some r => Some r
          | None => rest s
          end
      | None => rest s
      end
  end.

(** Match [p] at the head of [s]; [cap] is the text of group 1 so far. The
    result is the text of group 1 on the first alternative that succeeds,
    in the order a backtracking matcher tries them. *)
Fixpoint exec_at (p : pattern) (cap s : string) : option string :=
  match p with
  | [] => Some cap
  | Lit text :: p' =>
      match eat text s with
      | Some s' => exec_at p' cap s'
      | None => None
      end
  | One k :: p' =>
      match s with
      | String c s' => if in_charset k c then exec_at p' cap s' else None
      | EmptyString => None
      end
  | Star k :: p' => greedy k (fun _ s' => exec_at p' cap s') EmptyString s
  | Plus w :: p' =>
      match eat_member w s with
      | Some s' =>
          greedy_members (String.length s') w (fun s'' => exec_at p' cap s'')
            s'
      | None => None
      end
  | Group k :: p' =>
      match s with
      | String c s' =>
          if in_charset k c
          then greedy k (fun taken s'' => exec_at p' taken s'')
                 (String c EmptyString) s'
          else None
      | EmptyString => None
      end
  end.

(** [s.match(p)] for a pattern without flag [g]: the leftmost position at
    which [p] matches. The result stands for [match[1]]. *)
Fixpoint js_match (p : pattern) (s : string) : option string :=
  match exec_at p EmptyString s with
  | Some cap => Some cap
  | None =>
      match s with
      | EmptyString => None
      | String _ s' => js_match p s'
      end
  end.

(** The text with the given bytes. *)
Definition utf8 (bytes : list nat) : string :=
  fold_right (fun n s => String (ascii_of_nat n) s) EmptyString bytes.

(** The four classes: a quote character (double or single, written Q
    below), anything but a quote (written U), anything but [>], and white
    space. The class [\s] holds the white space and the line terminators
    of ECMAScript: TAB, LF, VT, FF, CR, SP, then U+00A0, U+1680, U+2000 to
    U+200A, U+2028, U+2029, U+202F, U+205F, U+3000 and U+FEFF. *)
Definition quote : charset := OneOf ["034"; "'"]%char.
Definition unquoted : charset := NoneOf ["034"; "'"]%char.
Definition not_gt : charset := NoneOf [">"]%char.
Definition space : wideset :=
  map utf8
    [ [9]; [10]; [11]; [12]; [13]; [32];
      [194; 160];
      [225; 154; 128];
      [226; 128; 128]; [226; 128; 129]; [226; 128; 130]; [226; 128; 131];
      [226; 128; 132]; [226; 128; 133]; [226; 128; 134]; [226; 128; 135];
      [226; 128; 136]; [226; 128; 137]; [226; 128; 138];
      [226; 128; 168]; [226; 128; 169];
      [226; 128; 175];
      [226; 129; 159];
      [227; 128; 128];
      [239; 187; 191] ]%nat.

(** The ordered candidates, with Q and U as above:
    - <input[^>]*name=QsecurityQ[^>]*value=Q(U+)Q
    - <input[^>]*value=Q(U+)Q[^>]*name=QsecurityQ
    - name=QsecurityQ[^>]*value=Q(U+)Q
    - securityQ\s+value=Q(U+)Q                     *)
Definition patterns : list pattern :=
  [ [Lit "<input"; Star not_gt; Lit "name="; One quote; Lit "security";
     One quote; Star not_gt; Lit "value="; One quote; Group unquoted;
     One quote];
    [Lit "<input"; Star not_gt; Lit "value="; One quote; Group unquoted;
     One quote; Star not_gt; Lit "name="; One quote; Lit "security";
     One quote];
    [Lit "name="; One quote; Lit "security"; One quote; Star not_gt;
     Lit "value="; One quote; Group unquoted; One quote];
    [Lit "security"; One quote; Plus space; Lit "value="; One quote;
     Group unquoted; One quote] ].

(** The loop of [extractSecurityToken]: the first candidate with a match
    whose group 1 is truthy. *)
Fixpoint first_token (ps : list pattern) (html : string) : option string :=
  match ps with
  | [] => None
  | p :: ps' =>
      match js_match p html with
      | Some g => if truthy g then Some g else first_token ps' html
      | None => first_token ps' html
      end
  end.

(** ** Paths ([path.basename], [path.join], [path.resolve], POSIX flavour) *)

(** [s.split(sep)] for a one-character separator. *)
Fixpoint split_on (sep : ascii) (s : string) : list string :=
  match s with
  | EmptyString => [EmptyString]
  | String c s' =>
      if Ascii.eqb c sep then EmptyString :: split_on sep s'
      else match split_on sep s' with
           | x :: xs => String c x :: xs
           | [] => [String c EmptyString]
           end
  end.

Definition segments (p : string) : list string := split_on "/" p.

(** One step of Node's [normalizeString]: [acc] holds the segments kept so
    far, last one first. *)
Definition push_segment (allowAboveRoot : bool) (acc : list string)
  (seg : string) : list string :=
  if (String.eqb seg EmptyString || String.eqb seg ".")%bool then acc
  else if String.eqb seg ".." then
    match acc with
    | last :: acc' =>
        if String.eqb last ".."
        then (if allowAboveRoot then seg :: acc else acc)
        else acc'
    | [] => if allowAboveRoot then [seg] else []
    end
  else seg :: acc.

Definition normalizeSegments (allowAboveRoot : bool) (p : string)
  : list string :=
  rev (fold_left (push_segment allowAboveRoot) (segments p) []).

Definition isAbsolute (p : string) : bool := startsWith p "/".

Fixpoint endsWith_slash (p : string) : bool :=
  match p with
  | EmptyString => false
  | String c EmptyString => Ascii.eqb c "/"
  | String _ p' => endsWith_slash p'
  end.

(** The absolute path with the given segments. *)
Definition render (segs : list string) : string := "/" ++ join "/" segs.

(** [path.normalize] *)
Definition path_normalize (p : string) : string :=
  if negb (truthy p) then "."
  else
    let segs := normalizeSegments (negb (isAbsolute p)) p in
    match segs with
    | [] => if isAbsolute p then "/"
            else if endsWith_slash p then "./" else "."
    | _ =>
        let body := join "/" segs ++ (if endsWith_slash p then "/" else EmptyString) in
        if isAbsolute p then "/" ++ body else body
    end.

(** [path.join(a, b)]: the non-empty arguments joined by [/], normalized. *)
Definition path_join (a b : string) : string :=
  match truthy a, truthy b with
  | false, false => "."
  | true, false => path_normalize a
  | false, true => path_normalize b
  | true, true => path_normalize (a ++ "/" ++ b)
  end.

(** [path.resolve(p)] in a process whose working directory is the absolute
    path [cwd]. *)
Definition path_resolve (cwd p : string) : string :=
  if isAbsolute p then render (normalizeSegments false p)
  else if truthy p then render (normalizeSegments false (cwd ++ "/" ++ p))
  else render (normalizeSegments false cwd).

(** [path.basename(p)]: the last non-empty segment, the empty string when
    there is none. *)
Definition path_basename (p : string) : string :=
  last (filter (fun seg => truthy seg) (segments p)) EmptyString.

(** The directory holding an absolute normalized path. *)
Definition parent_dir (p : string) : string :=
  render (removelast (normalizeSegments false p)).

(** ** Data model *)

(** A JSON value. Reservation records are passed through unread. *)
#[local] Unset Elimination Schemes.
Inductive json :=
| JNull
| JBool (b : bool)
| JNum (n : Z)
| JStr (s : string)
| JArr (xs : list json)
| JObj (fields : list (string * json)).
#[local] Set Elimination Schemes.

Definition Reservation := json.

(** A parsed JSON object, seen through the properties the client reads and
    typed as the portal sends them (a boolean flag, a string token, integer
    counts, an array of records); [None] is a property that is missing
    ([undefined]) or [null]. *)
Record Payload := {
  data_success : option bool;                    (* data.success *)
  data_token : option string;                    (* data.token *)
  data_reservations : option (list Reservation); (* data._embedded.reservations,
                                                    [None] also without [_embedded] *)
  data_total : option Z;                         (* data.total *)
  data_size : option Z                           (* data.size *)
}.

(** The decoded body: [JSON.parse] gave an object, or [null], or it failed
    and the body is kept as text (a body that parses to a string is text as
    well). Bodies that parse to a number, a boolean or an array are left
    out. *)
Inductive Body :=
| Text (s : string)
| Json (o : Payload)
| Null.

(** The response envelope resolved by [makeRequest], with the headers the
    client looks at. *)
Record Response := {
  status : Z;
  location : option string;     (* headers["location"] *)
  set_cookie : list string;     (* headers["set-cookie"] *)
  data : Body
}.

Definition Headers := list (string * string).

(** What [https.request] is given. The source builds [path] as one string,
    [pathname?query]; here the query parameters stay a list. *)
Record Request := {
  hostname : string;
  method : string;
  path : string;
  query : list (string * string);
  headers : Headers;
  postData : option string
}.

(** The [options] argument of [makeRequest]. *)
Record Options := {
  o_method : string;
  o_path : string;
  o_query : list (string * string);
  o_headers : Headers
}.

(** The remote side: it answers a request, knowing the requests sent
    before, or the connection fails. *)
Inductive Reply :=
| Respond (res : Response)
| Reject (message : string).

Definition Server := list Request -> Request -> Reply.

(** The files and directories of the machine, by absolute path. A file
    holds the records that [JSON.stringify] serialized into it. *)
Record FileSys := {
  dirs : list string;
  files : list (string * list Reservation)
}.

(** [this]: the session state of one client. *)
Record TrackHSClient := {
  domain : string;
  baseUrl : string;
  token : option string;
  cookies : list string
}.

(** The world outside the client: requests sent so far (oldest first),
    pacing delays taken, and the file system. *)
Record World := {
  sent : list Request;
  pauses : nat;
  disk : FileSys
}.

Record State := {
  this : TrackHSClient;
  world : World
}.

Inductive exn :=
| Error (message : string)
| TypeError (message : string).

(** How a computation ends: with a value, with an exception, or not at all
    within the iterations allowed to it. *)
Inductive outcome (A : Type) :=
| Ok (a : A)
| Throw (e : exn)
| Unfinished.
Arguments Ok {A} a.
Arguments Throw {A} e.
Arguments Unfinished {A}.

Definition M (A : Type) := State -> outcome A * State.

Definition ret {A} (a : A) : M A := fun st => (Ok a, st).
Definition throw {A} (e : exn) : M A := fun st => (Throw e, st).
Definition bind {A B} (m : M A) (k : A -> M B) : M B :=
  fun st =>
    match m st with
    | (Ok a, st') => k a st'
    | (Throw e, st') => (Throw e, st')
    | (Unfinished, st') => (Unfinished, st')
    end.

Notation "x <- m ;; k" := (bind m (fun x => k))
  (at level 61, m at next level, right associativity).
Notation "m ;;; k" := (bind m (fun _ => k))
  (at level 61, right associativity).

Definition get_this : M TrackHSClient := fun st => (Ok (this st), st).
Definition set_this (c : TrackHSClient) : M unit :=
  fun st => (Ok tt, {| this := c; world := world st |}).

(** ** Headers *)

Fixpoint get_header (k : string) (hs : Headers) : option string :=
  match hs with
  | [] => None
  | (k', v) :: hs' => if String.eqb k' k then Some v else get_header k hs'
  end.

(** [hs[k] = v] *)
Fixpoint set_header (k v : string) (hs : Headers) : Headers :=
  match hs with
  | [] => [(k, v)]
  | (k', v') :: hs' =>
      if String.eqb k' k then (k, v) :: hs' else (k', v') :: set_header k v hs'
  end.

(** [{...base, ...extra}] *)
Definition spread (base extra : Headers) : Headers :=
  fold_left (fun acc kv => set_header (fst kv) (snd kv) acc) extra base.

Definition dq : string := String "034" EmptyString.

Definition defaultHeaders : Headers :=
  [ ("accept", "application/json, text/javascript, */*; q=0.01");
    ("accept-encoding", "gzip, deflate, br, zstd");
    ("accept-language", "en-US,en;q=0.9");
    ("cache-control", "no-cache");
    ("dnt", "1");
    ("pragma", "no-cache");
    ("sec-ch-ua",
      dq ++ "Not(A:Brand" ++ dq ++ ";v=" ++ dq ++ "8" ++ dq ++ ", "
      ++ dq ++ "Chromium" ++ dq ++ ";v=" ++ dq ++ "144" ++ dq ++ ", "
      ++ dq ++ "Google Chrome" ++ dq ++ ";v=" ++ dq ++ "144" ++ dq);
    ("sec-ch-ua-mobile", "?0");
    ("sec-ch-ua-platform", dq ++ "macOS" ++ dq);
    ("sec-fetch-dest", "empty");
    ("sec-fetch-mode", "cors");
    ("sec-fetch-site", "same-origin");
    ("user-agent",
      "Mozilla/5.0 (Macintosh; Intel Mac OS X 10_15_7) AppleWebKit/537.36 (KHTML, like Gecko) Chrome/144.0.0.0 Safari/537.36");
    ("x-requested-with", "XMLHttpRequest") ].

Definition browserAccept : string :=
  "text/html,application/xhtml+xml,application/xml;q=0.9,image/avif,image/webp,image/apng,*/*;q=0.8,application/signed-exchange;v=b3;q=0.7".

(** ** Form encoding ([URLSearchParams.prototype.toString]) *)

Definition hex_digit (n : nat) : ascii :=
  nth n ["0"; "1"; "2"; "3"; "4"; "5"; "6"; "7"; "8"; "9";
         "A"; "B"; "C"; "D"; "E"; "F"]%char "0"%char.

Definition unreserved (c : ascii) : bool :=
  let n := nat_of_ascii c in
  (Nat.leb 48 n && Nat.leb n 57 || Nat.leb 65 n && Nat.leb n 90
   || Nat.leb 97 n && Nat.leb n 122)%nat
  || existsb (Ascii.eqb c) ["*"; "-"; "."; "_"]%char.

Fixpoint urlencode (s : string) : string :=
  match s with
  | EmptyString => EmptyString
  | String c s' =>
      (if unreserved c then String c EmptyString
       else if Ascii.eqb c " " then "+"
       else String "%" (String (hex_digit (nat_of_ascii c / 16)%nat)
                         (String (hex_digit (nat_of_ascii c mod 16)%nat)
                            EmptyString)))
      ++ urlencode s'
  end.

Definition formEncode (fields : list (string * string)) : string :=
  join "&" (map (fun kv => urlencode (fst kv) ++ "=" ++ urlencode (snd kv))
              fields).

(** [Buffer.byteLength] *)
Definition byteLength (s : string) : Z := Z.of_nat (String.length s).

(** ** Constants *)

Definition API_TOKEN_ENDPOINT : string := "/owner/api-token/".
Definition RESERVATIONS_ENDPOINT : string := "/api/v2/pms/reservations/".
Definition PAGE_SIZE : Z := 100.

(** ** File system ([fs.mkdir] with [recursive], [fs.writeFile]) *)

Definition mem (p : string) (ps : list string) : bool :=
  existsb (String.eqb p) ps.

Definition is_file (fs : FileSys) (p : string) : bool :=
  mem p (map fst (files fs)).

(** The prefixes of a list, shortest first: [[]; [a]; [a; b]; ...]. *)
Fixpoint prefixes {A} (l : list A) : list (list A) :=
  [] :: match l with
        | [] => []
        | a :: l' => map (cons a) (prefixes l')
        end.

(** A directory with all the directories above it, the root first. *)
Definition lineage (d : string) : list string :=
  map render (prefixes (normalizeSegments false d)).

(** [fs.mkdir(d, { recursive: true })] as Node documents it: the directory
    and the missing directories above it are made; a file in the way is an
    error. *)
Definition fs_mkdir_recursive (d : string) (fs : FileSys)
  : outcome FileSys :=
  if is_file fs d then
    Throw (Error ("EEXIST: file already exists, mkdir '" ++ d ++ "'"))
  else if existsb (is_file fs) (lineage d) then
    Throw (Error ("ENOTDIR: not a directory, mkdir '" ++ d ++ "'"))
  else
    Ok {| dirs := lineage d ++ dirs fs; files := files fs |}.

(** [fs.writeFile(p, content)]: the file is created or replaced; the
    target must not be a directory and its directory must exist. *)
Definition fs_writeFile (p : string) (content : list Reservation)
  (fs : FileSys) : outcome FileSys :=
  if mem p (dirs fs) then
    Throw (Error ("EISDIR: illegal operation on a directory, open '"
                  ++ p ++ "'"))
  else if negb (mem (parent_dir p) (dirs fs)) then
    Throw (Error ("ENOENT: no such file or directory, open '" ++ p ++ "'"))
  else
    Ok {| dirs := dirs fs;
          files := (p, content)
                   :: filter (fun f => negb (String.eqb (fst f) p))
                        (files fs) |}.

Definition with_disk (st : State) (fs : FileSys) : State :=
  {| this := this st;
     world := {| sent := sent (world st);
                 pauses := pauses (world st);
                 disk := fs |} |}.

(** Lift a file-system operation to the client's world. *)
Definition on_disk (op : FileSys -> outcome FileSys) : M unit :=
  fun st =>
    match op (disk (world st)) with
    | Ok fs' => (Ok tt, with_disk st fs')
    | Throw e => (Throw e, st)
    | Unfinished => (Unfinished, st)
    end.

(** ** The client *)

Definition with_cookies (c : TrackHSClient) (jar : list string)
  : TrackHSClient :=
  {| domain := domain c; baseUrl := baseUrl c; token := token c;
     cookies := jar |}.

Definition with_token (c : TrackHSClient) (t : option string)
  : TrackHSClient :=
  {| domain := domain c; baseUrl := baseUrl c; token := t;
     cookies := cookies c |}.

Definition log_request (w : World) (req : Request) : World :=
  {| sent := sent w ++ [req]; pauses := pauses w; disk := disk w |}.

(** [constructor(domain)] *)
Definition new_TrackHSClient (domain : option string)
  : outcome TrackHSClient :=
  match domain with
  | Some d =>
      if truthy d then
        Ok {| domain := d; baseUrl := d ++ ".trackhs.com"; token := None;
              cookies := [] |}
      else Throw (Error "TrackHS domain is required. Set TRACKHS_DOMAIN in .env or pass --domain")
  | None => Throw (Error "TrackHS domain is required. Set TRACKHS_DOMAIN in .env or pass --domain")
  end.

(** The headers [makeRequest] sends: the defaults, the cookie jar when it
    is not empty, the bearer token when one is held, then the caller's
    headers on top, then the body headers. *)
Definition requestHeaders (c : TrackHSClient) (options : Options)
  (body : option string) : Headers :=
  let h0 := defaultHeaders in
  let h1 := if (0 <? Z.of_nat (List.length (cookies c)))
            then set_header "cookie" (join "; " (cookies c)) h0 else h0 in
  let h2 := match token c with
            | Some t => if truthy t
                        then set_header "authorization" ("Bearer " ++ t) h1
                        else h1
            | None => h1
            end in
  let h3 := spread h2 (o_headers options) in
  match body with
  | Some b =>
      if truthy b then
        let h4 := if negb (truthy (get_header "content-type" h3))
                  then set_header "content-type" "application/json" h3
                  else h3 in
        set_header "content-length" (Z_to_string (byteLength b)) h4
      else h3
  | None => h3
  end.

Definition buildRequest (c : TrackHSClient) (options : Options)
  (body : option string) : Request :=
  {| hostname := baseUrl c;
     method := o_method options;
     path := o_path options;
     query := o_query options;
     headers := requestHeaders c options body;
     postData := if truthy body then body else None |}.

(** The requests of the four calls, as each method writes them. *)

(** [getApiToken] *)
Definition tokenOptions (c : TrackHSClient) : Options :=
  {| o_method := "GET"; o_path := API_TOKEN_ENDPOINT; o_query := [];
     o_headers := [("referer", "https://" ++ baseUrl c ++ "/owner/")] |}.

(** [login], step 1: the login page *)
Definition loginPageOptions : Options :=
  {| o_method := "GET"; o_path := "/owner/"; o_query := [];
     o_headers := [("accept", browserAccept);
                   ("sec-fetch-dest", "document");
                   ("sec-fetch-mode", "navigate");
                   ("sec-fetch-site", "none");
                   ("sec-fetch-user", "?1");
                   ("upgrade-insecure-requests", "1")] |}.

(** [login], step 2: the credentials *)
Definition credentialOptions (c : TrackHSClient) : Options :=
  {| o_method := "POST"; o_path := "/owner/"; o_query := [];
     o_headers := [("accept", browserAccept);
                   ("content-type", "application/x-www-form-urlencoded");
                   ("origin", "https://" ++ baseUrl c);
                   ("referer", "https://" ++ baseUrl c ++ "/owner/");
                   ("sec-fetch-dest", "document");
                   ("sec-fetch-mode", "navigate");
                   ("sec-fetch-site", "same-origin");
                   ("sec-fetch-user", "?1");
                   ("upgrade-insecure-requests", "1")] |}.

Definition credentialForm (username password securityToken : string)
  : string :=
  formEncode [("username", username); ("password", password);
              ("security", securityToken)].

(** The [options] of [fetchReservations]; a missing property takes its
    default. *)
Record FetchOptions := {
  startDate : option string;
  endDate : option string;
  unitId : option string;
  search : option string;
  page : option Z;
  pageSize : option Z;
  sortColumn : option string;
  sortDirection : option string
}.

Definition default {A} (d : A) (o : option A) : A :=
  match o with Some a => a | None => d end.

(** The query of a listing request, without the cache-busting parameter
    [_] ([Date.now()]). *)
Definition listingQuery (options : FetchOptions) : list (string * string) :=
  [ ("draw", Z_to_string (default 1 (page options)));
    ("search", default EmptyString (search options));
    ("startDateRange", default EmptyString (startDate options));
    ("endDateRange", default EmptyString (endDate options));
    ("unitId", default EmptyString (unitId options));
    ("size", Z_to_string (default PAGE_SIZE (pageSize options)));
    ("page", Z_to_string (default 1 (page options)));
    ("sortColumn", default "id" (sortColumn options));
    ("sortDirection", default "asc" (sortDirection options)) ].

(** [fetchReservations] *)
Definition listingOptions (c : TrackHSClient) (options : FetchOptions)
  : Options :=
  {| o_method := "GET"; o_path := RESERVATIONS_ENDPOINT;
     o_query := listingQuery options;
     o_headers := [("referer", "https://" ++ baseUrl c
                               ++ "/owner/reservations/");
                   ("priority", "u=1, i")] |}.

(** The options [fetchAllReservations] passes for one page. *)
Definition pageOptions (startDate endDate : string) (currentPage : Z)
  : FetchOptions :=
  {| startDate := Some startDate; endDate := Some endDate;
     unitId := None; search := None;
     page := Some currentPage; pageSize := Some PAGE_SIZE;
     sortColumn := None; sortDirection := None |}.

(** The state once the response [res] to the request [req] has arrived:
    the request is on record and the cookies of the response are stored. *)
Definition received (st : State) (req : Request) (res : Response) : State :=
  {| this := with_cookies (this st)
               (storeCookies (cookies (this st)) (set_cookie res));
     world := log_request (world st) req |}.

(** [body.name] as a plain value: [undefined] unless the body is an object
    that has the property. *)
Definition field {A} (name : Payload -> option A) (body : Body) : option A :=
  match body with
  | Json o => name o
  | _ => None
  end.

(** The records a listing response embeds. *)
Definition records (res : Response) : list Reservation :=
  default [] (field data_reservations (data res)).

Section Client.

Variable net : Server.

(** [makeRequest(options, postData)]: send, store the cookies of the
    response, resolve with the envelope; a connection error rejects. *)
Definition makeRequest (options : Options) (body : option string)
  : M Response :=
  fun st =>
    let req := buildRequest (this st) options body in
    match net (sent (world st)) req with
    | Reject message =>
        (Throw (Error message),
         {| this := this st; world := log_request (world st) req |})
    | Respond res => (Ok res, received st req res)
    end.

(** The [TypeError] of reading property [key] of [null]. *)
Definition null_read (key : string) : exn :=
  TypeError ("Cannot read properties of null (reading '" ++ key ++ "')").

(** [body.key] for a property of the decoded body, [name] in the model:
    [undefined] on text, a [TypeError] on [null]. *)
Definition prop {A} (key : string) (name : Payload -> option A)
  (body : Body) : M (option A) :=
  match body with
  | Json o => ret (name o)
  | Text _ => ret None
  | Null => throw (null_read key)
  end.

Definition getApiToken : M string :=
  c <- get_this ;;
  response <- makeRequest (tokenOptions c) None ;;
  if negb (status response =? 200) then
    throw (Error ("Failed to get API token. Status: "
                  ++ Z_to_string (status response)))
  else
    success <- prop "success" data_success (data response) ;;
    if negb (truthy success) then
      throw (Error "API token request failed or token not found in response")
    else
      tok <- prop "token" data_token (data response) ;;
      match tok with
      | Some t =>
          if truthy t then
            c' <- get_this ;;
            set_this (with_token c' (Some t)) ;;;
            ret t
          else
            throw (Error "API token request failed or token not found in response")
      | None =>
          throw (Error "API token request failed or token not found in response")
      end.

Definition extractSecurityToken (html : Body) : M string :=
  match html with
  | Text s =>
      match first_token patterns s with
      | Some t => ret t
      | None =>
          throw (Error "Could not extract security token from login page")
      end
  | Json _ => throw (TypeError "html.match is not a function")
  | Null => throw (null_read "match")
  end.

(** The end of [login]: what the response to the credential POST means. *)
Definition loginVerdict (loginResponse : Response) : M bool :=
  if (status loginResponse =? 302)
     && match location loginResponse with
        | Some l => truthy l
                    && (includes l "/owner/dashboard"
                        || includes l "/owner/")
        | None => false
        end
  then ret true
  else if (status loginResponse =? 200)
          && match data loginResponse with
             | Text s => includes s "Invalid" || includes s "incorrect"
                         || includes s "login"
             | _ => false
             end
  then throw (Error "Login failed: Invalid username or password")
  else throw (Error ("Login failed with status "
                     ++ Z_to_string (status loginResponse))).

Definition login (username password : string) : M bool :=
  loginPageResponse <- makeRequest loginPageOptions None ;;
  if negb (status loginPageResponse =? 200) then
    throw (Error ("Failed to fetch login page. Status: "
                  ++ Z_to_string (status loginPageResponse)))
  else
    securityToken <- extractSecurityToken (data loginPageResponse) ;;
    let formData := credentialForm username password securityToken in
    c <- get_this ;;
    loginResponse <- makeRequest (credentialOptions c) (Some formData) ;;
    loginVerdict loginResponse.

Definition fetchReservations (options : FetchOptions) : M Body :=
  c <- get_this ;;
  response <- makeRequest (listingOptions c options) None ;;
  if negb (status response =? 200) then
    throw (Error ("Failed to fetch reservations. Status: "
                  ++ Z_to_string (status response)))
  else ret (data response).

(** [sleep(500 + Math.random() * 500)]: one pacing delay. *)
Definition sleep : M unit :=
  fun st =>
    (Ok tt,
     {| this := this st;
        world := {| sent := sent (world st);
                    pauses := S (pauses (world st));
                    disk := disk (world st) |} |}).

(** [Math.ceil(a / b)] as the exact ceiling of the quotient. The source
    divides doubles; on operands that are safe integers (see
    [safe_integer]) the rounded quotient has the same ceiling. *)
Definition ceil_div (a b : Z) : Z := - ((- a) / b).

(** [if (data.total && data.size) totalPages = Math.ceil(...)] *)
Definition nextTotalPages (total size : option Z) (totalPages : Z) : Z :=
  if truthy total && truthy size
  then ceil_div (default 0 total) (default 0 size)
  else totalPages.

(** The [do ... while (currentPage <= totalPages)] loop, run for at most
    [fuel] iterations. *)
Fixpoint fetchLoop (fuel : nat) (startDate endDate : string)
  (allReservations : list Reservation) (currentPage totalPages : Z)
  : M (list Reservation) :=
  match fuel with
  | O => fun st => (Unfinished, st)
  | S fuel' =>
      body <- fetchReservations
                (pageOptions startDate endDate currentPage) ;;
      reservations <- prop "_embedded" data_reservations body ;;
      let allReservations :=
        if truthy reservations
        then (allReservations ++ default [] reservations)%list
        else allReservations in
      total <- prop "total" data_total body ;;
      size <- prop "size" data_size body ;;
      let totalPages := nextTotalPages total size totalPages in
      let currentPage := currentPage + 1 in
      (if currentPage <=? totalPages then sleep else ret tt) ;;;
      if currentPage <=? totalPages
      then fetchLoop fuel' startDate endDate allReservations
             currentPage totalPages
      else ret allReservations
  end.

Definition fetchAllReservations (fuel : nat) (startDate endDate : string)
  : M (list Reservation) :=
  fetchLoop fuel startDate endDate [] 1 1.

End Client.

(** ** The process: arguments, environment, [main] *)

Record Process := {
  argv : list string;                (* process.argv.slice(2) *)
  env : string -> option string;     (* process.env *)
  cwd : string;                      (* process.cwd(), absolute *)
  year : Z                           (* new Date().getFullYear() *)
}.

(** [a || d] where [d] is a string. *)
Definition or_else (a : option string) (d : string) : string :=
  match a with
  | Some s => if truthy s then s else d
  | None => d
  end.

(** [path.resolve(process.env.OUTPUT_DIR || "output")] *)
Definition outputDirOf (proc : Process) : string :=
  path_resolve (cwd proc) (or_else (env proc "OUTPUT_DIR") "output").

(** [path.join(outputDir, path.basename(filename))] *)
Definition savePathOf (proc : Process) (filename : string) : string :=
  path_join (outputDirOf proc) (path_basename filename).

Definition saveReservations (proc : Process)
  (reservations : list Reservation) (filename : string) : M unit :=
  let outputDir := outputDirOf proc in
  on_disk (fs_mkdir_recursive outputDir) ;;;
  let filepath := savePathOf proc filename in
  on_disk (fs_writeFile filepath reservations).

(** [args.indexOf(flag)] *)
Fixpoint indexOf (args : list string) (flag : string) : Z :=
  match args with
  | [] => -1
  | a :: args' =>
      if String.eqb a flag then 0
      else let i := indexOf args' flag in
           if i <? 0 then -1 else i + 1
  end.

(** [args[args.indexOf(flag) + 1]] *)
Definition arg_after (args : list string) (flag : string) : option string :=
  nth_error args (Z.to_nat (indexOf args flag + 1)).

(** The [reduce] of the summary: for each record in turn it reads
    [res.nights] and [res.ownerBreakdown?.grossRevenue]. Reading a property
    of [null] throws; of any other JSON value (an object, an array, a
    number, a string, a boolean) it does not. The two sums are only
    printed and are left out. *)
Fixpoint reduceSummary (reservations : list Reservation) : M unit :=
  match reservations with
  | [] => ret tt
  | JNull :: _ => throw (null_read "nights")
  | _ :: rest => reduceSummary rest
  end.

(** [if (reservations.length > 0) { ... reduce ... }] *)
Definition printSummary (reservations : list Reservation) : M unit :=
  if 0 <? Z.of_nat (List.length reservations)
  then reduceSummary reservations
  else ret tt.

(** Authenticated part of [main]: token, pagination, persistence, and the
    summary, all inside the [try]. *)
Definition pipeline (net : Server) (fuel : nat) (proc : Process)
  (startDate endDate outputFile : string) : M (list Reservation) :=
  getApiToken net ;;;
  reservations <- fetchAllReservations net fuel startDate endDate ;;
  saveReservations proc reservations outputFile ;;;
  printSummary reservations ;;;
  ret reservations.

(** How [main] leaves: the exit status, with the fetched records on
    success. *)
Definition finish (r : outcome (list Reservation) * State)
  : outcome (Z * list Reservation) * State :=
  match r with
  | (Ok reservations, st) => (Ok (0, reservations), st)
  | (Throw _, st) => (Ok (1, []), st)
  | (Unfinished, st) => (Unfinished, st)
  end.

(** A client that was never constructed, for the runs that end before. *)
Definition no_client : TrackHSClient :=
  {| domain := EmptyString; baseUrl := EmptyString; token := None;
     cookies := [] |}.

(** The settings [main] reads: the argument after the flag, else the
    environment variable, else the default. *)
Definition setting (proc : Process) (flag variable : string)
  : option string :=
  js_or (arg_after (argv proc) flag) (env proc variable).

Definition startDateOf (proc : Process) : string :=
  or_else (setting proc "--start-date" "TRACKHS_START_DATE")
    (Z_to_string (year proc) ++ "-01-01").

Definition endDateOf (proc : Process) : string :=
  or_else (setting proc "--end-date" "TRACKHS_END_DATE")
    (Z_to_string (year proc) ++ "-12-31").

Definition outputFileOf (proc : Process) : string :=
  or_else (setting proc "--output" "TRACKHS_OUTPUT_FILE")
    ("reservations-" ++ Z_to_string (year proc) ++ ".json").

Definition domainOf (proc : Process) : option string :=
  setting proc "--domain" "TRACKHS_DOMAIN".

Definition usernameOf (proc : Process) : option string :=
  setting proc "--username" "TRACKHS_USERNAME".

Definition passwordOf (proc : Process) : option string :=
  setting proc "--password" "TRACKHS_PASSWORD".

Definition sessionCookieOf (proc : Process) : option string :=
  setting proc "--session-cookie" "TRACKHS_SESSION_COOKIE".

Definition helpRequested (proc : Process) : bool :=
  mem "--help" (argv proc) || mem "-h" (argv proc).

(** [main], without its console output (the progress lines and the
    figures of the summary). The result is the exit status and the records
    fetched; an error caught by the [catch] gives exit status 1. *)
Definition main (net : Server) (fuel : nat) (proc : Process) (w : World)
  : outcome (Z * list Reservation) * State :=
  let quit code := (Ok (code, []), {| this := no_client; world := w |}) in
  if helpRequested proc then quit 0
  else
    let startDate := startDateOf proc in
    let endDate := endDateOf proc in
    let outputFile := outputFileOf proc in
    let domain := domainOf proc in
    let username := usernameOf proc in
    let password := passwordOf proc in
    let sessionCookie := sessionCookieOf proc in
    match new_TrackHSClient domain with
    | Ok client =>
        if truthy sessionCookie then
          finish (pipeline net fuel proc startDate endDate outputFile
                    {| this := with_cookies client
                                 [or_else sessionCookie EmptyString];
                       world := w |})
        else if truthy username && truthy password then
          finish ((login net (or_else username EmptyString)
                     (or_else password EmptyString) ;;;
                   pipeline net fuel proc startDate endDate outputFile)
                    {| this := client; world := w |})
        else quit 1
    | _ => quit 1
    end.

(** ** Vocabulary of the statements, and sample data *)

(** The hidden input of the login page, as the source comment shows it:
    an [input] of type [hidden], name [security] and value [abc123]. *)
Definition securityInput : string :=
  "<input type=" ++ dq ++ "hidden" ++ dq ++ " name=" ++ dq ++ "security"
  ++ dq ++ " value=" ++ dq ++ "abc123" ++ dq ++ ">".

Definition samplePrologue : string :=
  "<html><body><form method=" ++ dq ++ "post" ++ dq ++ ">".

Definition sampleEpilogue : string :=
  "<input name=" ++ dq ++ "username" ++ dq ++ "></form></body></html>".

Definition sampleLoginPage : string :=
  samplePrologue ++ securityInput ++ sampleEpilogue.

(** A page whose hidden input gives the value before the name. *)
Definition valueFirstPage : string :=
  "<form><input value='v1' name='security'></form>".

(** The opening of a page that shows the field of the username first. *)
Definition usernamePrologue : string :=
  "<form><input type='text' name='username'>".

(** A page on which an input with its own security value comes before the
    sample input. *)
Definition twoTokenPage : string :=
  "<input name='security' value='zzz'>" ++ securityInput.

(** A fragment that only the fourth candidate matches, with a no-break
    space (U+00A0) between the name and the value. *)
Definition noBreakPage : string :=
  "security'" ++ utf8 [194; 160]%nat ++ "value='tok'".

(** Group 1 of the leftmost match of [p] that begins at a position of
    [pre], in the text [pre ++ rest]; [None] when [p] matches at none of
    these positions. *)
Fixpoint earlier_match (p : pattern) (pre rest : string) : option string :=
  match pre with
  | EmptyString => None
  | String c pre' =>
      match exec_at p EmptyString (pre ++ rest) with
      | Some t => Some t
      | None => earlier_match p pre' rest
      end
  end.

Definition freshDisk : FileSys := {| dirs := ["/"]; files := [] |}.

Definition freshWorld : World :=
  {| sent := []; pauses := 0%nat; disk := freshDisk |}.

Definition acmeClient : TrackHSClient :=
  {| domain := "acme"; baseUrl := "acme.trackhs.com"; token := None;
     cookies := [] |}.

Definition acmeState : State := {| this := acmeClient; world := freshWorld |}.

Definition plainResponse (code : Z) (body : Body) : Response :=
  {| status := code; location := None; set_cookie := []; data := body |}.

(** A portal that serves the sample login page and answers the credential
    POST by showing a form again, with a message that lacks [Invalid]. *)
Definition rejectingPortal : Server :=
  fun _ req =>
    if String.eqb (method req) "POST"
    then Respond (plainResponse 200 (Text "Your password is incorrect."))
    else Respond (plainResponse 200 (Text sampleLoginPage)).

(** A portal that redirects a credential POST to the dashboard. *)
Definition welcomingPortal : Server :=
  fun _ req =>
    if String.eqb (method req) "POST"
    then Respond {| status := 302; location := Some "/owner/dashboard/";
                    set_cookie := ["TrackOwner=s3ss10n; path=/; HttpOnly"];
                    data := Text EmptyString |}
    else Respond (plainResponse 200 (Text sampleLoginPage)).

Definition jsonBody (success : option bool) (tok : option string) : Body :=
  Json {| data_success := success; data_token := tok;
          data_reservations := None; data_total := None;
          data_size := None |}.

(** A token endpoint that reports success with an empty token. *)
Definition emptyTokenPortal : Server :=
  fun _ _ => Respond (plainResponse 200 (jsonBody (Some true)
                                           (Some EmptyString))).

(** A token endpoint that issues [tok-123]. *)
Definition tokenPortal : Server :=
  fun _ _ => Respond (plainResponse 200 (jsonBody (Some true)
                                           (Some "tok-123"))).

(** The request [fetchAllReservations] issues for page [n] from the state
    [st]. *)
Definition pageRequest (st : State) (s e : string) (n : Z) : Request :=
  buildRequest (this st) (listingOptions (this st) (pageOptions s e n)) None.

(** The state after one pacing delay. *)
Definition paused (st : State) : State :=
  {| this := this st;
     world := {| sent := sent (world st);
                 pauses := S (pauses (world st));
                 disk := disk (world st) |} |}.

(** The value of a query parameter of a request. *)
Definition query_param (k : string) (q : Request) : option string :=
  get_header k (query q).

Definition listingBody (rs : option (list Reservation)) (total size : option Z)
  : Body :=
  Json {| data_success := None; data_token := None;
          data_reservations := rs; data_total := total;
          data_size := size |}.

Definition rec1 : Reservation := JObj [("id", JNum 1); ("nights", JNum 3)].
Definition rec2 : Reservation := JObj [("id", JNum 2); ("nights", JNum 5)].

(** A listing endpoint with 250 records in pages of 100; the page holds the
    record whose [id] is the number of requests seen so far. *)
Definition threePagePortal : Server :=
  fun hist _ =>
    Respond (plainResponse 200
               (listingBody
                  (Some [JObj [("id", JNum (Z.of_nat (List.length hist)))]])
                  (Some 250) (Some 100))).

(** A listing endpoint whose pages carry records but no [total] and no
    [size]. *)
Definition bareListingPortal : Server :=
  fun _ _ =>
    Respond (plainResponse 200 (listingBody (Some [rec1; rec2]) None None)).

(** A listing endpoint that reports a total of zero. *)
Definition zeroTotalPortal : Server :=
  fun _ _ =>
    Respond (plainResponse 200 (listingBody (Some []) (Some 0) (Some 100))).

(** The end-to-end scenario: domain [acme], a supplied session cookie, the
    month of January 2026. *)
Definition scenario : Process :=
  {| argv := ["--domain"; "acme"; "--session-cookie"; "TrackOwner=xyz";
              "--start-date"; "2026-01-01"; "--end-date"; "2026-01-31";
              "--output"; "january.json"];
     env := fun _ => None;
     cwd := "/app";
     year := 2026 |}.

(** The mocked portal of the scenario: a token endpoint, and a listing
    endpoint with one page of two records. *)
Definition scenarioPortal : Server :=
  fun _ req =>
    if String.eqb (path req) API_TOKEN_ENDPOINT
    then Respond (plainResponse 200 (jsonBody (Some true) (Some "tok-123")))
    else Respond (plainResponse 200
                    (listingBody (Some [rec1; rec2]) (Some 2) (Some 100))).

(** A proper name of a file or directory: not empty, without [/], and
    neither [.] nor [..]. *)
Definition plain (seg : string) : bool :=
  truthy seg && negb (has_char "/" seg)
  && negb (String.eqb seg ".") && negb (String.eqb seg "..").

(** Where [path.join] lands from the directory with segments [segs] when
    given one more segment. *)
Definition landing (segs : list string) (seg : string) : list string :=
  if (String.eqb seg EmptyString || String.eqb seg ".")%bool then segs
  else if String.eqb seg ".." then removelast segs
  else (segs ++ [seg])%list.

(** A process started in [/app] with an empty environment. *)
Definition appProcess : Process :=
  {| argv := []; env := fun _ => None; cwd := "/app"; year := 2026 |}.

(** The requests issued between two states of one run. *)
Definition since (before after : State) : list Request :=
  skipn (List.length (sent (world before))) (sent (world after)).

(** [m] keeps the invariant [I] of the client and every request it issues
    satisfies [P]. *)
Definition issues {A} (I : TrackHSClient -> Prop) (P : Request -> Prop)
  (m : M A) : Prop :=
  forall st,
    I (this st) ->
    I (this (snd (m st)))
    /\ exists new,
         sent (world (snd (m st))) = (sent (world st) ++ new)%list
         /\ Forall P new.

(** The invariant that holds of every client. *)
Definition anyClient : TrackHSClient -> Prop := fun _ => True.

Definition has_group (p : pattern) : bool :=
  existsb (fun x => match x with Group _ => true | _ => false end) p.

(** ** Further vocabulary: decoders and predicates used in the statements *)

(** Every character of the string satisfies [f]. *)
Fixpoint every (f : ascii -> bool) (s : string) : bool :=
  match s with
  | EmptyString => true
  | String c s' => f c && every f s'
  end.

(** The characters a form-encoded text is made of. *)
Definition form_safe (c : ascii) : bool :=
  unreserved c || Ascii.eqb c "+" || Ascii.eqb c "%".

(** The value of an upper-case hexadecimal digit: the number that
    [hex_digit] writes as [c]. *)
Definition hex_value (c : ascii) : option nat :=
  find (fun n => Ascii.eqb (hex_digit n) c) (seq 0 16).

(** The reader's side of [urlencode], as a form parser undoes it: [+] is a
    space and [%XY] the byte with that code. It is not part of the client;
    it states what the encoding keeps. *)
Fixpoint urldecode (s : string) : option string :=
  match s with
  | EmptyString => Some EmptyString
  | String c s' =>
      if Ascii.eqb c "%" then
        match s' with
        | String h (String l s'') =>
            match hex_value h, hex_value l, urldecode s'' with
            | Some a, Some b, Some r =>
                Some (String (ascii_of_nat (16 * a + b)) r)
            | _, _, _ => None
            end
        | _ => None
        end
      else
        match urldecode s' with
        | Some r => Some (String (if Ascii.eqb c "+" then " "%char else c) r)
        | None => None
        end
  end.

(** The text after the first [sep], empty when there is none. *)
Fixpoint split_rest (sep : ascii) (s : string) : string :=
  match s with
  | EmptyString => EmptyString
  | String c s' => if Ascii.eqb c sep then s' else split_rest sep s'
  end.

Definition decodeField (part : string) : option (string * string) :=
  match urldecode (split_head "=" part), urldecode (split_rest "=" part) with
  | Some k, Some v => Some (k, v)
  | _, _ => None
  end.

Fixpoint decodeFields (parts : list string)
  : option (list (string * string)) :=
  match parts with
  | [] => Some []
  | part :: parts' =>
      match decodeField part, decodeFields parts' with
      | Some f, Some fs => Some (f :: fs)
      | _, _ => None
      end
  end.

(** One field of [formEncode]. *)
Definition encodeField (kv : string * string) : string :=
  urlencode (fst kv) ++ "=" ++ urlencode (snd kv).

(** The reader's side of [formEncode]. *)
Definition formDecode (s : string) : option (list (string * string)) :=
  if truthy s then decodeFields (split_on "&" s) else Some [].

(** The headers [makeRequest] holds before the caller's headers are
    spread over them. *)
Definition sessionHeaders (c : TrackHSClient) : Headers :=
  let h1 := if (0 <? Z.of_nat (List.length (cookies c)))
            then set_header "cookie" (join "; " (cookies c)) defaultHeaders
            else defaultHeaders in
  match token c with
  | Some t => if truthy t
              then set_header "authorization" ("Bearer " ++ t) h1
              else h1
  | None => h1
  end.

(** A redirect back to the login path, as a rejecting portal may send. *)
Definition bouncingPortal : Server :=
  fun _ req =>
    if String.eqb (method req) "POST"
    then Respond {| status := 302; location := Some "/owner/";
                    set_cookie := []; data := Text EmptyString |}
    else Respond (plainResponse 200 (Text sampleLoginPage)).

(** [Number.isSafeInteger]: the integers that a double holds exactly and
    on which the arithmetic of the source ([a / b] under [Math.ceil],
    [currentPage++]) is the arithmetic of [Z]. *)
Definition safe_integer (n : Z) : Prop := - 2 ^ 53 < n < 2 ^ 53.

(** The page numbers [first], [first + 1], ..., [n] of them. *)
Definition pagesFrom (first : Z) (n : nat) : list Z :=
  map (fun i => first + Z.of_nat i) (seq 0 n).

(** A listing endpoint with 250 records in pages of 100, whose page holds
    one record that names the page asked for. *)
Definition catalogPortal : Server :=
  fun _ req =>
    Respond (plainResponse 200
               (listingBody
                  (Some [JStr (default EmptyString (query_param "page" req))])
                  (Some 250) (Some 100))).

(** A listing endpoint whose reported total is always two pages ahead of
    the requests it has seen. *)
Definition runawayPortal : Server :=
  fun hist _ =>
    Respond (plainResponse 200
               (listingBody (Some [])
                  (Some (100 * (Z.of_nat (List.length hist) + 2)))
                  (Some 100))).

(** The responses [ress] are the answers of [net] to the requests [reqs],
    sent one after the other on top of the history [hist]. *)
Fixpoint answered (net : Server) (hist reqs : list Request)
  (ress : list Response) : Prop :=
  match reqs, ress with
  | [], [] => True
  | q :: reqs', r :: ress' =>
      net hist q = Respond r /\ answered net (hist ++ [q]) reqs' ress'
  | _, _ => False
  end.

(** What the loop has done when it went from [st], with the records [acc]
    and the page [cur], to the result [r] in at most [fuel] turns: the
    requests it sent, their page numbers, its pauses and its records. *)
Definition Ledger (fuel : nat) (acc : list Reservation) (cur : Z)
  (st : State) (r : outcome (list Reservation) * State) : Prop :=
  exists reqs,
    sent (world (snd r)) = (sent (world st) ++ reqs)%list
    /\ (List.length reqs <= fuel)%nat
    /\ map (query_param "page") reqs
       = map (fun n => Some (Z_to_string n)) (pagesFrom cur (List.length reqs))
    /\ match fst r with
       | Ok rs =>
           (1 <= List.length reqs)%nat
           /\ S (pauses (world (snd r)))
              = (pauses (world st) + List.length reqs)%nat
           /\ exists more, rs = (acc ++ more)%list
       | Throw _ =>
           (1 <= List.length reqs)%nat
           /\ S (pauses (world (snd r)))
              = (pauses (world st) + List.length reqs)%nat
       | Unfinished =>
           List.length reqs = fuel
           /\ pauses (world (snd r)) = (pauses (world st) + fuel)%nat
       end.

(** [m] leaves the disk as it is. *)
Definition keeps_disk {A} (m : M A) : Prop :=
  forall st, disk (world (snd (m st))) = disk (world st).

(** A run started with credentials on the command line. *)
Definition cliProcess : Process :=
  {| argv := ["--username"; "owner@example.com"; "--password"; "hunter2";
              "--domain"; "acme"];
     env := fun _ => None;
     cwd := "/app";
     year := 2026 |}.

(** The portal of the scenario with a [null] among the records of its
    page. *)
Definition gappyPortal : Server :=
  fun _ req =>
    if String.eqb (path req) API_TOKEN_ENDPOINT
    then Respond (plainResponse 200 (jsonBody (Some true) (Some "tok-123")))
    else Respond (plainResponse 200
                    (listingBody (Some [rec1; JNull]) (Some 2) (Some 100))).

(** A run with the domain on the command line and the session cookie in
    the environment. *)
Definition envCookieProcess : Process :=
  {| argv := ["--domain"; "acme"];
     env := fun v =>
              if String.eqb v "TRACKHS_SESSION_COOKIE"
              then Some "TrackOwner=xyz"
              else None;
     cwd := "/app";
     year := 2026 |}.

(** A run configured by the environment alone. *)
Definition envProcess : Process :=
  {| argv := [];
     env := fun v =>
              if String.eqb v "TRACKHS_DOMAIN" then Some "acme"
              else if String.eqb v "TRACKHS_USERNAME"
                   then Some "owner@example.com"
              else if String.eqb v "TRACKHS_PASSWORD" then Some "hunter2"
              else None;
     cwd := "/app";
     year := 2026 |}.

(* ================================================================= *)
(** * Properties *)

(** ** The cookie jar *)

Section CookieJar.

Lemma startsWith_refl_head (sep : ascii) (s : string) :
  startsWith s (split_head sep s) = true.
Proof.
  induction s as [|c s IH]; simpl; [reflexivity|].
  destruct (Ascii.eqb c sep); simpl; [reflexivity|].
  now rewrite Ascii.eqb_refl, IH.
Qed.

(** A held cookie always starts with its own name. *)
Lemma startsWith_own_name (c : string) : startsWith c (cookieName c) = true.
Proof. apply startsWith_refl_head. Qed.

Lemma pair_keeps_name (cookie : string) :
  pair_shaped cookie = true ->
  cookieName (cookiePair cookie) = cookieName cookie.
Proof.
  unfold pair_shaped, cookieName, cookiePair.
  induction cookie as [|c s IH]; simpl; [reflexivity|].
  destruct (Ascii.eqb c "=") eqn:Eeq; simpl.
  - apply Ascii.eqb_eq in Eeq; subst c; reflexivity.
  - destruct (Ascii.eqb c ";") eqn:Esc; simpl; [discriminate|].
    rewrite Eeq. intros H. f_equal. now apply IH.
Qed.

Lemma pair_starts_with_name (cookie : string) :
  pair_shaped cookie = true ->
  startsWith (cookiePair cookie) (cookieName cookie) = true.
Proof.
  intros H. rewrite <- (pair_keeps_name _ H). apply startsWith_own_name.
Qed.

Lemma filter_twice {A} (f : A -> bool) (l : list A) :
  filter f (filter f l) = filter f l.
Proof.
  induction l as [|a l IH]; simpl; [reflexivity|].
  destruct (f a) eqn:E; simpl; [rewrite E, IH|]; auto.
Qed.

Lemma NoDup_map_filter {A B} (g : A -> B) (f : A -> bool) (l : list A) :
  NoDup (map g l) -> NoDup (map g (filter f l)).
Proof.
  induction l as [|a l IH]; simpl; intros H; [constructor|].
  inversion H as [|? ? Hnin Hnd]; subst.
  destruct (f a); simpl; [constructor|]; auto.
  intros Hin. apply Hnin.
  apply in_map_iff in Hin as (x & Hx & Hxin).
  apply in_map_iff. exists x. split; [assumption|].
  now apply filter_In in Hxin.
Qed.

Lemma storeCookie_idempotent (cookies : list string) (cookie : string) :
  pair_shaped cookie = true ->
  storeCookie (storeCookie cookies cookie) cookie
  = storeCookie cookies cookie.
Proof.
  intros H. unfold storeCookie.
  rewrite filter_app, filter_twice. simpl.
  now rewrite (pair_starts_with_name _ H); simpl; rewrite app_nil_r.
Qed.

Lemma storeCookie_unique (cookies : list string) (cookie : string) :
  pair_shaped cookie = true ->
  NoDup (map cookieName cookies) ->
  NoDup (map cookieName (storeCookie cookies cookie)).
Proof.
  intros H Hnd. unfold storeCookie.
  rewrite map_app. simpl. rewrite (pair_keeps_name _ H).
  apply NoDup_rev in Hnd.
  rewrite <- rev_involutive. apply NoDup_rev.
  rewrite rev_app_distr. simpl. constructor.
  - rewrite <- in_rev. intros Hin.
    apply in_map_iff in Hin as (e & He & Hein).
    apply filter_In in Hein as [_ Hf].
    rewrite <- He, startsWith_own_name in Hf. discriminate.
  - apply NoDup_rev. apply NoDup_map_filter.
    rewrite <- (rev_involutive (map cookieName cookies)).
    now apply NoDup_rev.
Qed.

Lemma storeCookies_snoc (cookies setCookies : list string) (cookie : string) :
  storeCookies cookies (setCookies ++ [cookie])
  = storeCookie (storeCookies cookies setCookies) cookie.
Proof. unfold storeCookies. now rewrite fold_left_app. Qed.

(** X24: over a run of pair-shaped headers the names in the jar stay unique. *)
Lemma storeCookies_unique (setCookies cookies : list string) :
  Forall (fun h => pair_shaped h = true) setCookies ->
  NoDup (map cookieName cookies) ->
  NoDup (map cookieName (storeCookies cookies setCookies)).
Proof.
  revert cookies.
  induction setCookies as [|h hs IH]; intros cookies Hall Hnd; [exact Hnd|].
  inversion Hall; subst. simpl. apply IH; [assumption|].
  now apply storeCookie_unique.
Qed.

(** X25: whatever the jar holds after a run of pair-shaped headers is the
    pair of the latest header that carries its name. *)
Lemma storeCookies_latest (setCookies : list string) (held : string) :
  Forall (fun h => pair_shaped h = true) setCookies ->
  In held (storeCookies [] setCookies) ->
  exists before h after,
    setCookies = (before ++ h :: after)%list
    /\ held = cookiePair h
    /\ Forall (fun h' => cookieName h' <> cookieName h) after.
Proof.
  induction setCookies as [|h hs IH] using rev_ind; intros Hall Hin.
  - destruct Hin.
  - rewrite storeCookies_snoc in Hin.
    apply Forall_app in Hall as [Hhs Hh].
    inversion Hh as [|? ? Hshape _]; subst.
    unfold storeCookie in Hin. apply in_app_or in Hin as [Hold|Hnew].
    + apply filter_In in Hold as [Hold Hkeep].
      destruct (IH Hhs Hold) as (b & h0 & a & -> & -> & Hafter).
      exists b, h0, (a ++ [h])%list. repeat split.
      * now rewrite <- app_assoc.
      * apply Forall_app. split; [assumption|].
        constructor; [|constructor].
        intros Heq. rewrite Heq in Hkeep.
        apply Forall_app in Hhs as [_ Hh0].
        inversion Hh0 as [|? ? Hshape0 _]; subst.
        now rewrite (pair_starts_with_name _ Hshape0) in Hkeep.
    + destruct Hnew as [<-|[]].
      exists hs, h, []. repeat split. constructor.
Qed.

End CookieJar.

(** C8 (as stated): a [Set-Cookie] value with an attribute but no [=] in
    its first part ([foo; Path=/]) is stored under the name [foo] while the
    filter looks for [foo; Path]: the second application keeps the first
    copy, so the jar after two applications differs from the jar after one
    and holds the name [foo] twice. *)
Lemma C8_repeated_valueless_cookie :
  storeCookie (storeCookie [] "foo; Path=/") "foo; Path=/" = ["foo"; "foo"]
  /\ storeCookie [] "foo; Path=/" = ["foo"]
  /\ storeCookie (storeCookie [] "foo; Path=/") "foo; Path=/"
     <> storeCookie [] "foo; Path=/"
  /\ ~ NoDup (map cookieName
                (storeCookie (storeCookie [] "foo; Path=/") "foo; Path=/")).
Proof.
  repeat split; try reflexivity.
  - discriminate.
  - vm_compute. intros H. inversion H as [|? ? Hnin _]; subst.
    apply Hnin. now left.
Qed.

(** C8 (amended): for a [Set-Cookie] value of the shape
    [name=value; attributes] (no [;] before the first [=]), storing it
    twice in succession gives the same jar as storing it once, and a jar
    whose cookie names are unique still has unique names afterwards. *)
Theorem C8_store_idempotent_unique (cookies : list string) (cookie : string) :
  pair_shaped cookie = true ->
  storeCookie (storeCookie cookies cookie) cookie = storeCookie cookies cookie
  /\ (NoDup (map cookieName cookies) ->
      NoDup (map cookieName (storeCookie cookies cookie))
      /\ NoDup (map cookieName
                  (storeCookie (storeCookie cookies cookie) cookie))).
Proof.
  intros H. split; [now apply storeCookie_idempotent|].
  intros Hnd. rewrite (storeCookie_idempotent _ _ H).
  split; now apply storeCookie_unique.
Qed.

Lemma C8_store_idempotent_unique_witness :
  pair_shaped "TrackOwner=xyz; Path=/; HttpOnly" = true
  /\ storeCookie (storeCookie ["lang=en"; "TrackOwner=old"]
                    "TrackOwner=xyz; Path=/; HttpOnly")
       "TrackOwner=xyz; Path=/; HttpOnly"
     = ["lang=en"; "TrackOwner=xyz"].
Proof.
  split; [reflexivity|].
  rewrite (proj1 (C8_store_idempotent_unique ["lang=en"; "TrackOwner=old"]
                    "TrackOwner=xyz; Path=/; HttpOnly" eq_refl)).
  reflexivity.
Defined.

(** C1: the filter of [makeRequest] drops every held cookie whose text
    starts with the new name, not only the cookie of that name. After
    [session_id=abc] is stored, a [Set-Cookie] for the different name
    [session] removes it from the jar. *)
Theorem C1_prefix_name_evicts_cookie :
  let setCookies := ["session_id=abc; Path=/"; "session=xyz; Path=/"] in
  cookieName "session_id=abc; Path=/" <> cookieName "session=xyz; Path=/"
  /\ storeCookies [] ["session_id=abc; Path=/"] = ["session_id=abc"]
  /\ storeCookies [] setCookies = ["session=xyz"]
  /\ ~ In "session_id=abc" (storeCookies [] setCookies).
Proof.
  repeat split; try reflexivity.
  - discriminate.
  - vm_compute. intros [H|[]]. discriminate.
Qed.

(** ** The security token *)

Section SecurityToken.

Lemma greedy_inv (k : charset) (rest : string -> string -> option string)
  (s taken r : string) :
  greedy k rest taken s = Some r ->
  exists taken' s',
    rest taken' s' = Some r /\ (truthy taken = true -> truthy taken' = true).
Proof.
  revert taken. induction s as [|c s IH]; intros taken H; simpl in H.
  - now exists taken, EmptyString.
  - destruct (in_charset k c).
    + destruct (greedy k rest (taken ++ String c EmptyString) s) eqn:E.
      * injection H as ->. apply IH in E as (t' & s' & Hr & Ht).
        exists t', s'. split; [assumption|]. intros _. apply Ht.
        now destruct taken.
      * now exists taken, (String c s).
    + now exists taken, (String c s).
Qed.

Lemma greedy_members_inv (n : nat) (w : wideset)
  (rest : string -> option string) (s r : string) :
  greedy_members n w rest s = Some r -> exists s', rest s' = Some r.
Proof.
  revert s. induction n as [|n IH]; intros s H; simpl in H.
  - now exists s.
  - destruct (eat_member w s) as [s1|]; [|now exists s].
    destruct (greedy_members n w rest s1) eqn:E; [|now exists s].
    injection H as ->. now apply IH in E.
Qed.

(** Group 1 of a match is never empty: the group is [(k+)]. *)
Lemma exec_at_capture (p : pattern) (cap s t : string) :
  exec_at p cap s = Some t ->
  truthy cap = true \/ has_group p = true ->
  truthy t = true.
Proof.
  revert cap s. induction p as [|x p IH]; intros cap s H Hc; simpl in H.
  - injection H as <-. destruct Hc as [Hc|Hc]; [assumption|discriminate].
  - destruct x as [text|k|k|w|k]; simpl in Hc.
    + destruct (eat text s); [|discriminate]. eapply IH; eauto.
    + destruct s as [|c s]; [discriminate|].
      destruct (in_charset k c); [|discriminate]. eapply IH; eauto.
    + apply greedy_inv in H as (t' & s' & H & _). eapply IH; eauto.
    + destruct (eat_member w s) as [s1|]; [|discriminate].
      apply greedy_members_inv in H as (s' & H). eapply IH; eauto.
    + destruct s as [|c s]; [discriminate|].
      destruct (in_charset k c); [|discriminate].
      apply greedy_inv in H as (t' & s' & H & Ht).
      eapply IH; [exact H|]. left. now apply Ht.
Qed.

Lemma js_match_capture (p : pattern) (s t : string) :
  has_group p = true -> js_match p s = Some t -> truthy t = true.
Proof.
  intros Hg. induction s as [|c s IH]; simpl; intros H.
  - destruct (exec_at p EmptyString EmptyString) eqn:E; [|discriminate].
    injection H as ->. eapply exec_at_capture; eauto.
  - destruct (exec_at p EmptyString (String c s)) eqn:E.
    + injection H as ->. eapply exec_at_capture; eauto.
    + auto.
Qed.

Lemma patterns_have_group (p : pattern) :
  In p patterns -> has_group p = true.
Proof.
  intros H. repeat (destruct H as [<-|H]; [reflexivity|]). destruct H.
Qed.

(** The loop returns the group of the first candidate that matches. *)
Lemma first_token_first (ps : list pattern) (html : string) (n : nat)
  (p : pattern) (t : string) :
  nth_error ps n = Some p ->
  js_match p html = Some t ->
  truthy t = true ->
  (forall m q, (m < n)%nat -> nth_error ps m = Some q ->
               js_match q html = None) ->
  first_token ps html = Some t.
Proof.
  revert n. induction ps as [|q ps IH]; intros n Hn Hm Ht Hbefore.
  - destruct n; discriminate.
  - destruct n as [|n]; simpl in *.
    + injection Hn as ->. now rewrite Hm, Ht.
    + rewrite (Hbefore 0%nat q); [|lia|reflexivity].
      apply (IH n); auto.
      intros m q' Hlt. apply (Hbefore (S m)). lia.
Qed.

Lemma first_token_none (ps : list pattern) (html : string) :
  (forall p, In p ps -> js_match p html = None) ->
  first_token ps html = None.
Proof.
  induction ps as [|q ps IH]; intros H; simpl; [reflexivity|].
  rewrite (H q); [|now left]. apply IH. intros p Hp. apply H. now right.
Qed.

(** The first candidate, at the sample input, whatever follows it. *)
Lemma first_pattern_at_input (post : string) :
  exec_at (nth 0 patterns []) EmptyString (securityInput ++ post)
  = Some "abc123".
Proof. vm_compute. reflexivity. Qed.

Lemma js_match_unfold (p : pattern) (s : string) :
  js_match p s
  = match exec_at p EmptyString s with
    | Some cap => Some cap
    | None => match s with
              | EmptyString => None
              | String _ s' => js_match p s'
              end
    end.
Proof. now destruct s. Qed.

(** The leftmost match in [pre ++ rest] is the leftmost match that begins
    in [pre], or else the leftmost match in [rest]. *)
Lemma js_match_after_prefix (p : pattern) (pre rest : string) :
  js_match p (pre ++ rest)
  = match earlier_match p pre rest with
    | Some t => Some t
    | None => js_match p rest
    end.
Proof.
  induction pre as [|c pre IH]; [reflexivity|].
  cbn [earlier_match]. rewrite js_match_unfold.
  destruct (exec_at p EmptyString (String c pre ++ rest)); [reflexivity|].
  exact IH.
Qed.

Lemma js_match_at_input (post : string) :
  js_match (nth 0 patterns []) (securityInput ++ post) = Some "abc123".
Proof. now rewrite js_match_unfold, first_pattern_at_input. Qed.

End SecurityToken.

(** C4 (as stated): a page can hold the sample hidden input and yet give
    another token: an earlier input that the first candidate matches
    wins. *)
Lemma C4_earlier_input_wins :
  includes twoTokenPage securityInput = true
  /\ extractSecurityToken (Text twoTokenPage) acmeState
     = (Ok "zzz", acmeState)
  /\ fst (extractSecurityToken (Text twoTokenPage) acmeState)
     <> Ok "abc123".
Proof. repeat split; try reflexivity. discriminate. Qed.

(** C4 (amended): on a login page that holds the sample hidden input,
    [extractSecurityToken] returns [abc123], unless the first candidate
    already matches at a position before that input: then it returns the
    group of the leftmost such match. It throws the could-not-extract error
    when none of the four candidates matches; and when a candidate matches
    while all the candidates before it do not, its group is the result. *)
Theorem C4_extractSecurityToken :
  (forall pre post st,
      extractSecurityToken (Text (pre ++ securityInput ++ post)) st
      = (Ok match earlier_match (nth 0 patterns []) pre
                    (securityInput ++ post) with
            | Some t => t
            | None => "abc123"
            end, st))
  /\ (forall html st,
         (forall p, In p patterns -> js_match p html = None) ->
         extractSecurityToken (Text html) st
         = (Throw (Error "Could not extract security token from login page"),
            st))
  /\ (forall html st n p t,
         nth_error patterns n = Some p ->
         js_match p html = Some t ->
         (forall m q, (m < n)%nat -> nth_error patterns m = Some q ->
                      js_match q html = None) ->
         extractSecurityToken (Text html) st = (Ok t, st)).
Proof.
  split; [|split].
  - intros pre post st. unfold extractSecurityToken.
    pose proof (js_match_after_prefix (nth 0 patterns []) pre
                  (securityInput ++ post)) as Hm.
    rewrite js_match_at_input in Hm.
    rewrite (first_token_first patterns _ 0 (nth 0 patterns [])
               match earlier_match (nth 0 patterns []) pre
                       (securityInput ++ post) with
               | Some t => t
               | None => "abc123"
               end); try reflexivity.
    + rewrite Hm. now destruct (earlier_match _ _ _).
    + apply (js_match_capture (nth 0 patterns [])
               (pre ++ securityInput ++ post)); [reflexivity|].
      rewrite Hm. now destruct (earlier_match _ _ _).
    + intros m q Hlt. lia.
  - intros html st Hnone. unfold extractSecurityToken.
    now rewrite first_token_none.
  - intros html st n p t Hn Hm Hbefore. unfold extractSecurityToken.
    rewrite (first_token_first patterns html n p t); auto.
    apply (js_match_capture p html); [|assumption].
    apply patterns_have_group. eapply nth_error_In; eauto.
Qed.

Lemma C4_extractSecurityToken_witness :
  extractSecurityToken (Text sampleLoginPage) acmeState
  = (Ok "abc123", acmeState)
  /\ extractSecurityToken
       (Text (usernamePrologue ++ securityInput ++ sampleEpilogue)) acmeState
     = (Ok "abc123", acmeState)
  /\ extractSecurityToken (Text "<html>maintenance</html>") acmeState
     = (Throw (Error "Could not extract security token from login page"),
        acmeState)
  /\ extractSecurityToken (Text valueFirstPage) acmeState
     = (Ok "v1", acmeState)
  /\ extractSecurityToken (Text noBreakPage) acmeState
     = (Ok "tok", acmeState).
Proof.
  destruct C4_extractSecurityToken as (Hsample & Hnone & Hfirst).
  split; [|split; [|split; [|split]]].
  - apply (Hsample samplePrologue sampleEpilogue acmeState).
  - apply (Hsample usernamePrologue sampleEpilogue acmeState).
  - apply Hnone. intros p Hp.
    repeat (destruct Hp as [<-|Hp]; [reflexivity|]). destruct Hp.
  - apply (Hfirst valueFirstPage acmeState 1%nat (nth 1 patterns []) "v1");
      try reflexivity.
    intros m q Hm Hq. destruct m as [|m]; [|lia].
    injection Hq as <-. reflexivity.
  - apply (Hfirst noBreakPage acmeState 3%nat (nth 3 patterns []) "tok");
      try reflexivity.
    intros m q Hm Hq. destruct m as [|[|[|m]]]; [| | |lia];
      injection Hq as <-; reflexivity.
Defined.

(** ** Transport and session *)

Section Session.

Variable net : Server.

Lemma makeRequest_respond (st : State) (o : Options) (b : option string)
  (res : Response) :
  net (sent (world st)) (buildRequest (this st) o b) = Respond res ->
  makeRequest net o b st
  = (Ok res, received st (buildRequest (this st) o b) res).
Proof. intros H. unfold makeRequest. now rewrite H. Qed.

Lemma bind_ok {A B} (m : M A) (k : A -> M B) (st st' : State) (a : A) :
  m st = (Ok a, st') -> bind m k st = k a st'.
Proof. intros H. unfold bind. now rewrite H. Qed.

(** Once the login page gave a token, [login] ends as the verdict on the
    response to the credential POST. *)
Lemma login_reaches_verdict (st : State) (username password : string)
  (page post : Response) (html tok : string) :
  let get := buildRequest (this st) loginPageOptions None in
  let st1 := received st get page in
  let req := buildRequest (this st1) (credentialOptions (this st1))
               (Some (credentialForm username password tok)) in
  net (sent (world st)) get = Respond page ->
  status page = 200 ->
  data page = Text html ->
  first_token patterns html = Some tok ->
  net (sent (world st1)) req = Respond post ->
  login net username password st = loginVerdict post (received st1 req post).
Proof.
  intros get st1 req Hget Hstatus Hdata Htok Hpost.
  unfold login.
  erewrite bind_ok; [|apply makeRequest_respond; exact Hget].
  rewrite Hstatus, Hdata. cbn [Z.eqb Pos.eqb negb].
  unfold extractSecurityToken. rewrite Htok.
  unfold ret at 1, get_this. unfold bind at 1. unfold bind at 1.
  fold get. fold st1.
  erewrite bind_ok; [|apply makeRequest_respond; exact Hpost].
  reflexivity.
Qed.

Lemma includes_nonempty (s sub : string) :
  truthy sub = true -> includes s sub = true -> truthy s = true.
Proof.
  destruct s; [|reflexivity].
  destruct sub; intros Hs Hi; [discriminate Hs|discriminate Hi].
Qed.

End Session.

(** C3 (as stated): a credential POST answered with status 200 and a text
    that holds [incorrect] but not [Invalid] is neither of the two named
    outcomes, yet [login] throws the invalid-credentials error, not the
    error that names the status. *)
Lemma C3_incorrect_is_invalid_credentials :
  includes "Your password is incorrect." "Invalid" = false
  /\ fst (login rejectingPortal "owner@example.com" "hunter2" acmeState)
     = Throw (Error "Login failed: Invalid username or password")
  /\ fst (login rejectingPortal "owner@example.com" "hunter2" acmeState)
     <> Throw (Error ("Login failed with status " ++ Z_to_string 200)).
Proof.
  split; [reflexivity|].
  assert (H : fst (login rejectingPortal "owner@example.com" "hunter2"
                     acmeState)
              = Throw (Error "Login failed: Invalid username or password"))
    by (vm_compute; reflexivity).
  split; [exact H|]. rewrite H. vm_compute. discriminate.
Qed.

(** C3 (amended): once the login page gave a token, the response to the
    credential POST decides [login]: status 302 with a [Location] that
    holds [/owner/dashboard] or [/owner/] returns [true]; status 200 with a
    text body that holds [Invalid], [incorrect] or [login] throws the
    invalid-credentials error; every other response throws the error that
    names its status. *)
Theorem C3_login_outcomes (net : Server) (st : State)
  (username password : string) (page post : Response) (html tok : string) :
  let get := buildRequest (this st) loginPageOptions None in
  let st1 := received st get page in
  let req := buildRequest (this st1) (credentialOptions (this st1))
               (Some (credentialForm username password tok)) in
  let redirected :=
    status post = 302
    /\ exists l, location post = Some l
                 /\ includes l "/owner/dashboard" || includes l "/owner/"
                    = true in
  let reshown :=
    status post = 200
    /\ exists body, data post = Text body
                    /\ includes body "Invalid" || includes body "incorrect"
                       || includes body "login" = true in
  net (sent (world st)) get = Respond page ->
  status page = 200 ->
  data page = Text html ->
  first_token patterns html = Some tok ->
  net (sent (world st1)) req = Respond post ->
  (redirected -> fst (login net username password st) = Ok true)
  /\ (reshown ->
      fst (login net username password st)
      = Throw (Error "Login failed: Invalid username or password"))
  /\ (~ redirected -> ~ reshown ->
      fst (login net username password st)
      = Throw (Error ("Login failed with status "
                      ++ Z_to_string (status post)))).
Proof.
  intros get st1 req redirected reshown Hget Hstatus Hdata Htok Hpost.
  rewrite (login_reaches_verdict net st username password page post html tok
             Hget Hstatus Hdata Htok Hpost).
  fold get. fold st1. fold req. unfold loginVerdict.
  split; [|split].
  - intros (H302 & l & Hl & Hinc). rewrite H302, Hl, Hinc.
    replace (truthy l) with true; [reflexivity|].
    symmetry. apply orb_true_iff in Hinc as [H|H];
      eapply includes_nonempty; eauto; reflexivity.
  - intros (H200 & body & Hbody & Hinc). now rewrite H200, Hbody, Hinc.
  - intros Hnr Hns.
    destruct ((status post =? 302)
              && match location post with
                 | Some l => truthy l && (includes l "/owner/dashboard"
                                          || includes l "/owner/")
                 | None => false
                 end) eqn:E1.
    + exfalso. apply Hnr. apply andb_true_iff in E1 as [Hs Hl].
      apply Z.eqb_eq in Hs. split; [assumption|].
      destruct (location post) as [l|]; [|discriminate].
      exists l. split; [reflexivity|].
      now apply andb_true_iff in Hl as [_ Hl].
    + destruct ((status post =? 200)
                && match data post with
                   | Text s => includes s "Invalid" || includes s "incorrect"
                               || includes s "login"
                   | _ => false
                   end) eqn:E2; [|reflexivity].
      exfalso. apply Hns. apply andb_true_iff in E2 as [Hs Hb].
      apply Z.eqb_eq in Hs. split; [assumption|].
      destruct (data post) as [body| |]; try discriminate.
      now exists body.
Qed.

Lemma C3_login_outcomes_witness :
  fst (login welcomingPortal "owner@example.com" "hunter2" acmeState)
  = Ok true.
Proof.
  refine (proj1 (C3_login_outcomes welcomingPortal acmeState
                   "owner@example.com" "hunter2"
                   (plainResponse 200 (Text sampleLoginPage))
                   {| status := 302; location := Some "/owner/dashboard/";
                      set_cookie := ["TrackOwner=s3ss10n; path=/; HttpOnly"];
                      data := Text EmptyString |}
                   sampleLoginPage "abc123"
                   eq_refl eq_refl eq_refl eq_refl eq_refl) _).
  split; [reflexivity|].
  exists "/owner/dashboard/". split; reflexivity.
Defined.

(** ** Requests issued by a computation *)

Section Issues.

Variable net : Server.
Variable I : TrackHSClient -> Prop.
Variable P : Request -> Prop.
Hypothesis I_cookies : forall c jar, I c -> I (with_cookies c jar).

Lemma since_app (st st' : State) (new : list Request) :
  sent (world st') = (sent (world st) ++ new)%list -> since st st' = new.
Proof.
  intros H. unfold since. rewrite H.
  rewrite skipn_app, skipn_all, Nat.sub_diag. reflexivity.
Qed.

Lemma issues_ret {A} (a : A) : issues I P (ret a).
Proof.
  intros st HI. split; [exact HI|]. exists []. simpl.
  now rewrite app_nil_r.
Qed.

Lemma issues_throw {A} (e : exn) : issues I P (@throw A e).
Proof.
  intros st HI. split; [exact HI|]. exists []. simpl.
  now rewrite app_nil_r.
Qed.

Lemma issues_unfinished {A} : issues I P (fun st => (@Unfinished A, st)).
Proof.
  intros st HI. split; [exact HI|]. exists []. simpl.
  now rewrite app_nil_r.
Qed.

Lemma issues_bind {A B} (m : M A) (k : A -> M B) :
  issues I P m -> (forall a, issues I P (k a)) -> issues I P (bind m k).
Proof.
  intros Hm Hk st HI. unfold bind.
  destruct (Hm st HI) as (HI1 & new1 & Hs1 & HP1).
  destruct (m st) as [[a|e|] st1]; simpl in *.
  - destruct (Hk a st1 HI1) as (HI2 & new2 & Hs2 & HP2).
    split; [exact HI2|]. exists (new1 ++ new2)%list.
    rewrite Hs2, Hs1, app_assoc. split; [reflexivity|].
    apply Forall_app. now split.
  - split; [exact HI1|]. now exists new1.
  - split; [exact HI1|]. now exists new1.
Qed.

Lemma issues_get_this : issues I P get_this.
Proof.
  intros st HI. split; [exact HI|]. exists []. simpl.
  now rewrite app_nil_r.
Qed.

Lemma issues_sleep : issues I P sleep.
Proof.
  intros st HI. split; [exact HI|]. exists []. simpl.
  now rewrite app_nil_r.
Qed.

Lemma issues_prop {A} (key : string) (name : Payload -> option A)
  (body : Body) :
  issues I P (prop key name body).
Proof. destruct body; [apply issues_ret|apply issues_ret|apply issues_throw]. Qed.

Lemma issues_on_disk (op : FileSys -> outcome FileSys) :
  issues I P (on_disk op).
Proof.
  intros st HI. unfold on_disk.
  destruct (op (disk (world st))); simpl;
    (split; [exact HI|]); exists []; now rewrite app_nil_r.
Qed.

Lemma issues_makeRequest (o : Options) (b : option string) :
  (forall c, I c -> P (buildRequest c o b)) ->
  issues I P (makeRequest net o b).
Proof.
  intros HP st HI. unfold makeRequest.
  destruct (net (sent (world st)) (buildRequest (this st) o b)); simpl.
  - split; [now apply I_cookies|].
    exists [buildRequest (this st) o b]. split; [reflexivity|].
    constructor; [now apply HP|constructor].
  - split; [exact HI|].
    exists [buildRequest (this st) o b]. split; [reflexivity|].
    constructor; [now apply HP|constructor].
Qed.

Lemma issues_fetchReservations (options : FetchOptions) :
  (forall c c', I c -> P (buildRequest c (listingOptions c' options) None)) ->
  issues I P (fetchReservations net options).
Proof.
  intros HP. unfold fetchReservations.
  apply issues_bind; [apply issues_get_this|]. intros c.
  apply issues_bind; [apply issues_makeRequest; intros; apply HP; auto|].
  intros res. destruct (negb (status res =? 200));
    [apply issues_throw|apply issues_ret].
Qed.

Lemma issues_fetchLoop (fuel : nat) (s e : string) :
  (forall c c' options,
      I c -> P (buildRequest c (listingOptions c' options) None)) ->
  forall acc cur tot, issues I P (fetchLoop net fuel s e acc cur tot).
Proof.
  intros HP. induction fuel as [|fuel IH]; intros acc cur tot.
  - apply issues_unfinished.
  - cbn [fetchLoop].
    apply issues_bind; [apply issues_fetchReservations; intros; now apply HP|].
    intros body. apply issues_bind; [apply issues_prop|]. intros rs.
    apply issues_bind; [apply issues_prop|]. intros total.
    apply issues_bind; [apply issues_prop|]. intros size.
    apply issues_bind.
    + destruct (cur + 1 <=? nextTotalPages total size tot);
        [apply issues_sleep|apply issues_ret].
    + intros _. destruct (cur + 1 <=? nextTotalPages total size tot);
        [apply IH|apply issues_ret].
Qed.

End Issues.

(** ** The bearer token *)

Section Bearer.

Lemma get_set_header (k k' v : string) (hs : Headers) :
  get_header k (set_header k' v hs)
  = if String.eqb k' k then Some v else get_header k hs.
Proof.
  induction hs as [|[k0 v0] hs IH]; simpl.
  - destruct (String.eqb k' k); reflexivity.
  - destruct (String.eqb k0 k') eqn:E0; simpl.
    + apply String.eqb_eq in E0; subst k0.
      destruct (String.eqb k' k); reflexivity.
    + rewrite IH. destruct (String.eqb k0 k) eqn:E1; [|reflexivity].
      apply String.eqb_eq in E1; subst k0.
      rewrite String.eqb_sym in E0. now rewrite E0.
Qed.

Lemma get_spread (k : string) (extra base : Headers) :
  get_header k extra = None ->
  get_header k (spread base extra) = get_header k base.
Proof.
  unfold spread. revert base.
  induction extra as [|[k0 v0] extra IH]; intros base H; simpl in *;
    [reflexivity|].
  destruct (String.eqb k0 k) eqn:E; [discriminate|].
  rewrite IH by assumption. now rewrite get_set_header, E.
Qed.

(** A client that holds a token sends it with every request whose caller
    does not set [authorization] itself. *)
Lemma bearer_header (c : TrackHSClient) (o : Options) (b : option string)
  (t : string) :
  token c = Some t ->
  truthy t = true ->
  get_header "authorization" (o_headers o) = None ->
  get_header "authorization" (headers (buildRequest c o b))
  = Some ("Bearer " ++ t).
Proof.
  intros Ht Htruthy Ho. cbn [buildRequest headers]. unfold requestHeaders.
  rewrite Ht, Htruthy.
  assert (H3 : get_header "authorization"
                 (spread
                    (set_header "authorization" ("Bearer " ++ t)
                       (if 0 <? Z.of_nat (List.length (cookies c))
                        then set_header "cookie" (join "; " (cookies c))
                               defaultHeaders
                        else defaultHeaders))
                    (o_headers o))
               = Some ("Bearer " ++ t)).
  { rewrite get_spread by assumption. now rewrite get_set_header. }
  destruct b as [b|]; [|exact H3].
  destruct (truthy b); [|exact H3].
  rewrite get_set_header. cbn [String.eqb Ascii.eqb Bool.eqb].
  destruct (negb _); [|exact H3].
  rewrite get_set_header. exact H3.
Qed.

Variable net : Server.

(** What [getApiToken] does with the response to its request. *)
Lemma getApiToken_cases (st : State) (res : Response) :
  let req := buildRequest (this st) (tokenOptions (this st)) None in
  let st1 := received st req res in
  let failed :=
    Error "API token request failed or token not found in response" in
  net (sent (world st)) req = Respond res ->
  getApiToken net st
  = if negb (status res =? 200) then
      (Throw (Error ("Failed to get API token. Status: "
                     ++ Z_to_string (status res))), st1)
    else match data res with
         | Null => (Throw (null_read "success"), st1)
         | _ =>
             if truthy (field data_success (data res)) then
               match field data_token (data res) with
               | Some t =>
                   if truthy t
                   then (Ok t, {| this := with_token (this st1) (Some t);
                                  world := world st1 |})
                   else (Throw failed, st1)
               | None => (Throw failed, st1)
               end
             else (Throw failed, st1)
         end.
Proof.
  intros req st1 failed Hnet. unfold getApiToken.
  unfold bind at 1. unfold get_this at 1.
  erewrite bind_ok; [|apply makeRequest_respond; exact Hnet].
  fold req. fold st1.
  destruct (negb (status res =? 200)); [reflexivity|].
  destruct (data res) as [s|o|]; cbn [prop field]; try reflexivity.
  unfold bind at 1, ret at 1.
  destruct (truthy (data_success o)); [|reflexivity].
  unfold bind at 1, ret at 1.
  destruct (data_token o) as [t|]; [|reflexivity].
  destruct (truthy t); reflexivity.
Qed.

End Bearer.




(** ** Pagination *)

Section Pagination.

Variable net : Server.

(** One turn of the loop on a 200 response with an object or text body. *)
Lemma fetchLoop_step (fuel : nat) (s e : string) (acc : list Reservation)
  (cur tot : Z) (st : State) (res : Response) :
  let req := pageRequest st s e cur in
  let st1 := received st req res in
  let acc' := (acc ++ records res)%list in
  let tot' := nextTotalPages (field data_total (data res))
                (field data_size (data res)) tot in
  net (sent (world st)) req = Respond res ->
  status res = 200 ->
  data res <> Null ->
  fetchLoop net (S fuel) s e acc cur tot st
  = if cur + 1 <=? tot'
    then fetchLoop net fuel s e acc' (cur + 1) tot' (paused st1)
    else (Ok acc', st1).
Proof.
  intros req st1 acc' tot' Hnet Hstatus Hbody.
  cbn [fetchLoop]. unfold fetchReservations.
  unfold bind at 1. unfold bind at 1. unfold get_this at 1.
  erewrite bind_ok; [|apply makeRequest_respond; exact Hnet].
  fold (pageRequest st s e cur). fold req. fold st1.
  rewrite Hstatus. cbn [Z.eqb Pos.eqb negb]. unfold ret at 1.
  assert (Hacc : (if truthy (field data_reservations (data res))
                  then (acc ++ default [] (field data_reservations (data res)))%list
                  else acc) = acc').
  { unfold acc', records.
    destruct (field data_reservations (data res)); cbn;
      [reflexivity|now rewrite app_nil_r]. }
  destruct (data res) as [txt|o|] eqn:Ed; [| |congruence];
    cbn [prop field] in *; unfold bind at 1, ret at 1;
    unfold bind at 1, ret at 1; unfold bind at 1, ret at 1;
    rewrite Hacc; fold tot';
    (destruct (cur + 1 <=? tot'); [reflexivity|reflexivity]).
Qed.

(** A first page that does not give a truthy [total] and a truthy [size]
    is the only page. *)
Lemma fetchAll_single_page (fuel : nat) (s e : string) (st : State)
  (res : Response) :
  let req := pageRequest st s e 1 in
  net (sent (world st)) req = Respond res ->
  status res = 200 ->
  data res <> Null ->
  truthy (field data_total (data res)) && truthy (field data_size (data res))
  = false ->
  fetchAllReservations net (S fuel) s e st
  = (Ok (records res), received st req res).
Proof.
  intros req Hnet Hstatus Hbody Hfalsy. unfold fetchAllReservations.
  rewrite (fetchLoop_step fuel s e [] 1 1 st res Hnet Hstatus Hbody).
  unfold nextTotalPages. rewrite Hfalsy. reflexivity.
Qed.

Lemma since_received (st : State) (req : Request) (res : Response) :
  since st (received st req res) = [req].
Proof. now apply since_app. Qed.

End Pagination.

(** C2: when the responses to the listing requests all have status 200 and
    report [total = 250] and [size = 100], [fetchAllReservations] sets
    [totalPages] to 3, issues the requests for pages 1, 2 and 3 in this
    order, with a pacing delay after the first and the second, and returns
    the records of the three pages, page after page. *)
Theorem C2_three_pages (net : Server) (st : State) (s e : string)
  (fuel : nat) (r1 r2 r3 : Response) :
  let q1 := pageRequest st s e 1 in
  let st1 := paused (received st q1 r1) in
  let q2 := pageRequest st1 s e 2 in
  let st2 := paused (received st1 q2 r2) in
  let q3 := pageRequest st2 s e 3 in
  let st3 := received st2 q3 r3 in
  net (sent (world st)) q1 = Respond r1 ->
  net (sent (world st1)) q2 = Respond r2 ->
  net (sent (world st2)) q3 = Respond r3 ->
  (forall r, In r [r1; r2; r3] ->
             status r = 200
             /\ field data_total (data r) = Some 250
             /\ field data_size (data r) = Some 100) ->
  (3 <= fuel)%nat ->
  nextTotalPages (Some 250) (Some 100) 1 = 3
  /\ fetchAllReservations net fuel s e st
     = (Ok (records r1 ++ records r2 ++ records r3)%list, st3)
  /\ since st st3 = [q1; q2; q3]
  /\ map (query_param "page") [q1; q2; q3] = [Some "1"; Some "2"; Some "3"].
Proof.
  intros q1 st1 q2 st2 q3 st3 H1 H2 H3 Hall Hfuel.
  destruct (Hall r1) as (Hs1 & Ht1 & Hz1); [simpl; auto|].
  destruct (Hall r2) as (Hs2 & Ht2 & Hz2); [simpl; auto|].
  destruct (Hall r3) as (Hs3 & Ht3 & Hz3); [simpl; auto|].
  assert (Hnn : forall r, field data_total (data r) = Some 250 ->
                          data r <> Null)
    by (intros r Hr Hn; rewrite Hn in Hr; discriminate).
  split; [reflexivity|]. split; [|split].
  - destruct fuel as [|[|[|fuel]]]; try lia.
    unfold fetchAllReservations.
    rewrite (fetchLoop_step net _ s e [] 1 1 st r1 H1 Hs1 (Hnn _ Ht1)).
    rewrite Ht1, Hz1.
    change (1 + 1 <=? nextTotalPages (Some 250) (Some 100) 1) with true.
    change (nextTotalPages (Some 250) (Some 100) 1) with 3.
    change (1 + 1) with 2. cbv iota. fold q1. fold st1.
    rewrite (fetchLoop_step net _ s e _ 2 3 st1 r2 H2 Hs2 (Hnn _ Ht2)).
    rewrite Ht2, Hz2.
    change (2 + 1 <=? nextTotalPages (Some 250) (Some 100) 3) with true.
    change (nextTotalPages (Some 250) (Some 100) 3) with 3.
    change (2 + 1) with 3. cbv iota. fold q2. fold st2.
    rewrite (fetchLoop_step net _ s e _ 3 3 st2 r3 H3 Hs3 (Hnn _ Ht3)).
    rewrite Ht3, Hz3.
    change (3 + 1 <=? nextTotalPages (Some 250) (Some 100) 3) with false.
    cbv iota. fold q3. fold st3. now rewrite <- app_assoc.
  - apply since_app. unfold st3, st2, st1.
    cbn [received paused log_request world sent].
    now rewrite <- !app_assoc.
  - reflexivity.
Qed.

Lemma C2_three_pages_witness :
  fst (fetchAllReservations threePagePortal 3 "2026-01-01" "2026-12-31"
         acmeState)
  = Ok [JObj [("id", JNum 0)]; JObj [("id", JNum 1)]; JObj [("id", JNum 2)]].
Proof.
  pose (page n := plainResponse 200
                    (listingBody (Some [JObj [("id", JNum n)]])
                       (Some 250) (Some 100))).
  destruct (C2_three_pages threePagePortal acmeState
              "2026-01-01" "2026-12-31" 3 (page 0) (page 1) (page 2)
              eq_refl eq_refl eq_refl) as (_ & Hrun & _).
  - intros r [<-|[<-|[<-|[]]]]; repeat split.
  - lia.
  - rewrite Hrun. reflexivity.
Defined.

(** C5: when the response to the first listing request has status 200 and
    a body without [total] and without [size], [totalPages] keeps its
    initial value 1, the request for page 1 is the only request, no pacing
    delay is taken, and the loop ends with the records that this response
    embeds. *)
Theorem C5_no_total_no_size (net : Server) (st : State) (s e : string)
  (fuel : nat) (res : Response) :
  let req := pageRequest st s e 1 in
  net (sent (world st)) req = Respond res ->
  status res = 200 ->
  data res <> Null ->
  field data_total (data res) = None ->
  field data_size (data res) = None ->
  (1 <= fuel)%nat ->
  nextTotalPages (field data_total (data res)) (field data_size (data res)) 1
  = 1
  /\ fetchAllReservations net fuel s e st
     = (Ok (records res), received st req res)
  /\ since st (snd (fetchAllReservations net fuel s e st)) = [req]
  /\ pauses (world (snd (fetchAllReservations net fuel s e st)))
     = pauses (world st).
Proof.
  intros req Hnet Hstatus Hbody Htotal Hsize Hfuel.
  destruct fuel as [|fuel]; [lia|].
  assert (Hrun : fetchAllReservations net (S fuel) s e st
                 = (Ok (records res), received st req res)).
  { apply fetchAll_single_page; auto. now rewrite Htotal. }
  rewrite Hrun, Htotal, Hsize. repeat split.
  apply since_received.
Qed.

Lemma C5_no_total_no_size_witness :
  fetchAllReservations bareListingPortal 10 "2026-01-01" "2026-12-31"
    acmeState
  = (Ok [rec1; rec2],
     received acmeState (pageRequest acmeState "2026-01-01" "2026-12-31" 1)
       (plainResponse 200 (listingBody (Some [rec1; rec2]) None None))).
Proof.
  refine (proj1 (proj2 (C5_no_total_no_size bareListingPortal acmeState
                          "2026-01-01" "2026-12-31" 10
                          (plainResponse 200
                             (listingBody (Some [rec1; rec2]) None None))
                          eq_refl eq_refl _ eq_refl eq_refl _))).
  - discriminate.
  - lia.
Defined.

(** C9: [totalPages] is recomputed only when [total] and [size] are both
    truthy. A response whose [total] is 0, or whose [size] is 0, leaves
    [totalPages] as it was, like a response without these fields; when it
    is the first response, [totalPages] stays 1 and not 0, and the request
    for page 1 is the only request. *)
Theorem C9_zero_total_or_size (net : Server) (st : State) (s e : string)
  (fuel : nat) (res : Response) :
  let req := pageRequest st s e 1 in
  net (sent (world st)) req = Respond res ->
  status res = 200 ->
  field data_total (data res) = Some 0
  \/ field data_size (data res) = Some 0 ->
  (1 <= fuel)%nat ->
  (forall total size totalPages,
      nextTotalPages total size totalPages <> totalPages ->
      truthy total = true /\ truthy size = true)
  /\ (forall totalPages,
         nextTotalPages (field data_total (data res))
           (field data_size (data res)) totalPages
         = nextTotalPages None None totalPages
         /\ nextTotalPages None None totalPages = totalPages)
  /\ fetchAllReservations net fuel s e st
     = (Ok (records res), received st req res)
  /\ since st (snd (fetchAllReservations net fuel s e st)) = [req].
Proof.
  intros req Hnet Hstatus Hzero Hfuel.
  assert (Hfalsy : truthy (field data_total (data res))
                   && truthy (field data_size (data res)) = false).
  { destruct Hzero as [H|H]; rewrite H; [reflexivity|].
    apply andb_false_r. }
  assert (Hbody : data res <> Null).
  { intros Hn. rewrite Hn in Hzero. destruct Hzero; discriminate. }
  destruct fuel as [|fuel]; [lia|].
  assert (Hrun : fetchAllReservations net (S fuel) s e st
                 = (Ok (records res), received st req res))
    by (apply fetchAll_single_page; auto).
  split; [|split; [|split]].
  - intros total size totalPages Hchanged. unfold nextTotalPages in Hchanged.
    destruct (truthy total), (truthy size); auto; now elim Hchanged.
  - intros totalPages. unfold nextTotalPages at 1. rewrite Hfalsy.
    split; reflexivity.
  - exact Hrun.
  - rewrite Hrun. apply since_received.
Qed.

Lemma C9_zero_total_or_size_witness :
  fst (fetchAllReservations zeroTotalPortal 10 "2026-01-01" "2026-12-31"
         acmeState) = Ok []
  /\ List.length
       (sent (world (snd (fetchAllReservations zeroTotalPortal 10
                            "2026-01-01" "2026-12-31" acmeState))))
     = 1%nat.
Proof.
  destruct (C9_zero_total_or_size zeroTotalPortal acmeState
              "2026-01-01" "2026-12-31" 10
              (plainResponse 200 (listingBody (Some []) (Some 0) (Some 100)))
              eq_refl eq_refl (or_introl eq_refl))
    as (_ & _ & Hrun & _); [lia|].
  rewrite Hrun. split; reflexivity.
Defined.

(** ** The orchestrator *)

Section Orchestrator.

Variable net : Server.
Variable P : Request -> Prop.

Lemma anyClient_cookies (c : TrackHSClient) (jar : list string) :
  anyClient c -> anyClient (with_cookies c jar).
Proof. intros _. exact Logic.I. Qed.

Lemma issues_set_this (c : TrackHSClient) : issues anyClient P (set_this c).
Proof.
  intros st _. split; [exact Logic.I|]. exists []. simpl.
  now rewrite app_nil_r.
Qed.

Lemma issues_getApiToken :
  (forall c c', P (buildRequest c (tokenOptions c') None)) ->
  issues anyClient P (getApiToken net).
Proof.
  intros HP. unfold getApiToken.
  apply issues_bind; [apply issues_get_this|]. intros c.
  apply issues_bind;
    [apply issues_makeRequest; [apply anyClient_cookies|intros; apply HP]|].
  intros res. destruct (negb (status res =? 200)); [apply issues_throw|].
  apply issues_bind; [apply issues_prop|]. intros success.
  destruct (negb (truthy success)); [apply issues_throw|].
  apply issues_bind; [apply issues_prop|]. intros [t|]; [|apply issues_throw].
  destruct (truthy t); [|apply issues_throw].
  apply issues_bind; [apply issues_get_this|]. intros c'.
  apply issues_bind; [apply issues_set_this|]. intros _. apply issues_ret.
Qed.

Lemma issues_saveReservations (proc : Process) (rs : list Reservation)
  (filename : string) :
  issues anyClient P (saveReservations proc rs filename).
Proof.
  unfold saveReservations.
  apply issues_bind; [apply issues_on_disk|]. intros _. apply issues_on_disk.
Qed.

Lemma issues_printSummary (rs : list Reservation) :
  issues anyClient P (printSummary rs).
Proof.
  unfold printSummary.
  destruct (0 <? Z.of_nat (List.length rs)); [|apply issues_ret].
  induction rs as [|r rs IH]; cbn [reduceSummary]; [apply issues_ret|].
  destruct r; try apply IH; apply issues_throw.
Qed.

Lemma issues_pipeline (fuel : nat) (proc : Process) (s e out : string) :
  (forall c c', P (buildRequest c (tokenOptions c') None)) ->
  (forall c c' options, P (buildRequest c (listingOptions c' options) None)) ->
  issues anyClient P (pipeline net fuel proc s e out).
Proof.
  intros Htok Hlist. unfold pipeline.
  apply issues_bind; [now apply issues_getApiToken|]. intros _.
  apply issues_bind.
  - unfold fetchAllReservations.
    apply issues_fetchLoop; [apply anyClient_cookies|].
    intros. apply Hlist.
  - intros rs. apply issues_bind; [apply issues_saveReservations|].
    intros _. apply issues_bind; [apply issues_printSummary|].
    intros _. apply issues_ret.
Qed.

Lemma finish_state (r : outcome (list Reservation) * State) :
  snd (finish r) = snd r.
Proof. now destruct r as [[rs|e|] st]. Qed.

End Orchestrator.

(** C7: a session cookie supplied through [TRACKHS_SESSION_COOKIE] is not
    the cookie the run uses once the command line holds any argument. With
    the arguments [--domain acme] and the cookie [TrackOwner=xyz] in the
    environment, [indexOf] finds no [--session-cookie], the expression
    [args[-1 + 1]] is the first argument, and the jar is initialised to
    [--domain]: both requests of the run carry [cookie: --domain], and the
    supplied cookie is never sent. No login request is issued and the two
    records are fetched, as the portal of the scenario does not look at the
    cookie. *)
Theorem C7_env_cookie_replaced_by_first_argument :
  let run := main scenarioPortal 5 envCookieProcess freshWorld in
  env envCookieProcess "TRACKHS_SESSION_COOKIE" = Some "TrackOwner=xyz"
  /\ sessionCookieOf envCookieProcess = Some "--domain"
  /\ map (fun q => (path q, get_header "cookie" (headers q)))
       (sent (world (snd run)))
     = [(API_TOKEN_ENDPOINT, Some "--domain");
        (RESERVATIONS_ENDPOINT, Some "--domain")]
  /\ cookies (this (snd run)) = ["--domain"]
  /\ fst run = Ok (0, [rec1; rec2]).
Proof. cbv zeta. repeat split; reflexivity. Qed.

(** ** Paths *)

Section Paths.

Lemma split_on_whole (sep : ascii) (s : string) :
  has_char sep s = false -> split_on sep s = [s].
Proof.
  induction s as [|c s IH]; simpl; [reflexivity|].
  destruct (Ascii.eqb c sep); simpl; [discriminate|].
  intros H. now rewrite IH.
Qed.

Lemma split_on_app (sep : ascii) (a b : string) :
  has_char sep a = false ->
  split_on sep (a ++ String sep b) = a :: split_on sep b.
Proof.
  induction a as [|c a IH]; simpl.
  - now rewrite Ascii.eqb_refl.
  - destruct (Ascii.eqb c sep); simpl; [discriminate|].
    intros H. now rewrite IH.
Qed.

Lemma split_on_clean (sep : ascii) (s : string) :
  Forall (fun x => has_char sep x = false) (split_on sep s).
Proof.
  induction s as [|c s IH]; simpl.
  - constructor; [reflexivity|constructor].
  - destruct (Ascii.eqb c sep) eqn:E.
    + constructor; [reflexivity|assumption].
    + destruct (split_on sep s) as [|x xs]; inversion IH; subst.
      * constructor; [simpl; now rewrite E|constructor].
      * constructor; [simpl; now rewrite E|assumption].
Qed.

Lemma plain_parts (seg : string) :
  plain seg = true ->
  truthy seg = true /\ has_char "/" seg = false
  /\ String.eqb seg EmptyString = false
  /\ String.eqb seg "." = false /\ String.eqb seg ".." = false.
Proof.
  unfold plain. intros H.
  apply andb_true_iff in H as [H Hdd].
  apply andb_true_iff in H as [H Hd].
  apply andb_true_iff in H as [Ht Hs].
  apply negb_true_iff in Hdd, Hd, Hs.
  repeat split; auto. now destruct seg.
Qed.

Lemma push_plain (b : bool) (acc : list string) (seg : string) :
  plain seg = true -> push_segment b acc seg = seg :: acc.
Proof.
  intros H. apply plain_parts in H as (_ & _ & He & Hd & Hdd).
  unfold push_segment. now rewrite He, Hd, Hdd.
Qed.

Lemma fold_push_plain (b : bool) (segs acc : list string) :
  Forall (fun x => plain x = true) segs ->
  fold_left (push_segment b) segs acc = (rev segs ++ acc)%list.
Proof.
  revert acc. induction segs as [|x segs IH]; intros acc H; [reflexivity|].
  inversion H; subst. simpl. rewrite push_plain by assumption.
  rewrite IH by assumption. now rewrite <- app_assoc.
Qed.

Lemma segments_join (segs : list string) :
  Forall (fun x => plain x = true) segs ->
  segs <> [] ->
  segments (join "/" segs) = segs.
Proof.
  unfold segments, join.
  induction segs as [|x segs IH]; intros H Hne; [congruence|].
  inversion H as [|? ? Hx Hrest]; subst.
  apply plain_parts in Hx as (_ & Hx & _).
  destruct segs as [|y segs].
  - simpl. now apply split_on_whole.
  - change (String.concat "/" (x :: y :: segs))
      with (x ++ String "/" (String.concat "/" (y :: segs))).
    rewrite split_on_app by assumption. f_equal.
    apply IH; [assumption|discriminate].
Qed.

Lemma segments_render (segs : list string) :
  Forall (fun x => plain x = true) segs ->
  segments (render segs)
  = EmptyString :: match segs with [] => [EmptyString] | _ => segs end.
Proof.
  intros H. unfold render.
  change ("/" ++ join "/" segs) with (String "/" (join "/" segs)).
  unfold segments. cbn [split_on]. rewrite Ascii.eqb_refl. f_equal.
  destruct segs as [|x segs]; [reflexivity|].
  apply segments_join; [assumption|discriminate].
Qed.

(** Normalizing the path of plain segments gives the segments back. *)
Lemma normalize_render (segs : list string) :
  Forall (fun x => plain x = true) segs ->
  normalizeSegments false (render segs) = segs.
Proof.
  intros H. unfold normalizeSegments. rewrite segments_render by assumption.
  destruct segs as [|x segs]; [reflexivity|].
  change (fold_left (push_segment false) (EmptyString :: x :: segs) [])
    with (fold_left (push_segment false) (x :: segs) []).
  rewrite fold_push_plain by assumption.
  now rewrite app_nil_r, rev_involutive.
Qed.

Lemma push_keeps_plain (acc : list string) (seg : string) :
  has_char "/" seg = false ->
  Forall (fun x => plain x = true) acc ->
  Forall (fun x => plain x = true) (push_segment false acc seg).
Proof.
  intros Hs Hacc. unfold push_segment.
  destruct (String.eqb seg EmptyString) eqn:He; [assumption|].
  destruct (String.eqb seg ".") eqn:Hd; [assumption|]. cbn [orb].
  destruct (String.eqb seg "..") eqn:Hdd.
  - destruct acc as [|l acc]; [constructor|].
    inversion Hacc; subst. destruct (String.eqb l ".."); assumption.
  - constructor; [|assumption]. unfold plain.
    rewrite Hs, Hd, Hdd. destruct seg; [discriminate He|reflexivity].
Qed.

(** Whatever is normalized as an absolute path has plain segments. *)
Lemma normalize_plain (p : string) :
  Forall (fun x => plain x = true) (normalizeSegments false p).
Proof.
  unfold normalizeSegments. apply Forall_rev.
  assert (H : forall segs acc,
             Forall (fun x => has_char "/" x = false) segs ->
             Forall (fun x => plain x = true) acc ->
             Forall (fun x => plain x = true)
               (fold_left (push_segment false) segs acc)).
  { induction segs as [|x segs IH]; intros acc Hs Hacc; [assumption|].
    inversion Hs; subst. simpl. apply IH; [assumption|].
    now apply push_keeps_plain. }
  apply H; [apply split_on_clean|constructor].
Qed.

Lemma resolve_render (cwd p : string) :
  exists segs,
    path_resolve cwd p = render segs
    /\ Forall (fun x => plain x = true) segs.
Proof.
  unfold path_resolve.
  destruct (isAbsolute p); [|destruct (truthy p)];
    eexists; (split; [reflexivity|apply normalize_plain]).
Qed.

(** [path.basename] never keeps a directory component. *)
Lemma basename_cases (p : string) :
  has_char "/" (path_basename p) = false.
Proof.
  unfold path_basename.
  assert (H : Forall (fun x => has_char "/" x = false)
                (filter (fun seg => truthy seg) (segments p))).
  { apply Forall_forall. intros x Hx. apply filter_In in Hx as [Hx _].
    pose proof (split_on_clean "/" p) as Hc.
    rewrite Forall_forall in Hc. now apply Hc. }
  induction (filter (fun seg => truthy seg) (segments p)) as [|x l IH];
    [reflexivity|].
  inversion H; subst. destruct l as [|y l]; [assumption|].
  now apply IH.
Qed.

Lemma split_on_nonempty (sep : ascii) (s : string) : split_on sep s <> [].
Proof.
  destruct s as [|c s]; simpl; [discriminate|].
  destruct (Ascii.eqb c sep); [discriminate|].
  destruct (split_on sep s); discriminate.
Qed.

Lemma split_on_around (sep : ascii) (a b : string) :
  split_on sep (a ++ String sep b)
  = (split_on sep a ++ split_on sep b)%list.
Proof.
  induction a as [|c a IH]; simpl.
  - now rewrite Ascii.eqb_refl.
  - destruct (Ascii.eqb c sep); [now rewrite IH|].
    rewrite IH. pose proof (split_on_nonempty sep a) as Hne.
    destruct (split_on sep a); [congruence|reflexivity].
Qed.

Lemma append_assoc (a b c : string) : (a ++ b) ++ c = a ++ (b ++ c).
Proof. induction a as [|x a IH]; simpl; [reflexivity|now rewrite IH]. Qed.

Lemma append_empty (s : string) : s ++ EmptyString = s.
Proof. induction s as [|c s IH]; simpl; [reflexivity|now rewrite IH]. Qed.

Lemma endsWith_slash_app (a b : string) :
  truthy b = true -> endsWith_slash (a ++ b) = endsWith_slash b.
Proof.
  intros Hb. induction a as [|c a IH]; [reflexivity|].
  change (String c a ++ b) with (String c (a ++ b)).
  cbn [endsWith_slash]. destruct (a ++ b) eqn:E; [|exact IH].
  destruct a; [|discriminate]. simpl in E. subst b. discriminate.
Qed.

Lemma endsWith_slash_clean (b : string) :
  has_char "/" b = false -> endsWith_slash b = false.
Proof.
  induction b as [|c b IH]; [reflexivity|]. simpl.
  destruct (Ascii.eqb c "/") eqn:E; [discriminate|]. simpl.
  intros H. destruct b; [assumption|now apply IH].
Qed.

Lemma join_ends_with_last (x : string) (segs : list string) :
  exists a, join "/" (x :: segs) = a ++ last (x :: segs) EmptyString.
Proof.
  revert x. induction segs as [|y segs IH]; intros x.
  - now exists EmptyString.
  - destruct (IH y) as [a Ha].
    exists (x ++ "/" ++ a).
    change (join "/" (x :: y :: segs)) with (x ++ "/" ++ join "/" (y :: segs)).
    rewrite Ha.
    change (last (x :: y :: segs) EmptyString)
      with (last (y :: segs) EmptyString).
    rewrite !append_assoc. reflexivity.
Qed.

Lemma render_no_trailing_slash (x : string) (segs : list string) :
  Forall (fun s => plain s = true) (x :: segs) ->
  endsWith_slash (render (x :: segs)) = false.
Proof.
  intros H. unfold render.
  destruct (join_ends_with_last x segs) as [a Ha]. rewrite Ha.
  assert (Hl : plain (last (x :: segs) EmptyString) = true).
  { rewrite Forall_forall in H. apply H.
    destruct (@exists_last _ (x :: segs)) as (l' & z & Hz); [discriminate|].
    rewrite Hz, last_last. apply in_or_app. right. now left. }
  apply plain_parts in Hl as (Ht & Hs & _).
  rewrite <- append_assoc.
  rewrite endsWith_slash_app by assumption.
  now apply endsWith_slash_clean.
Qed.

Lemma rev_tl_rev {A} (l : list A) : rev (tl (rev l)) = removelast l.
Proof.
  induction l as [|a l IH] using rev_ind; [reflexivity|].
  rewrite rev_app_distr. simpl. rewrite rev_involutive.
  now rewrite removelast_last.
Qed.

Lemma push_is_landing (segs : list string) (b : string) :
  Forall (fun s => plain s = true) segs ->
  rev (push_segment false (rev segs) b) = landing segs b.
Proof.
  intros H. unfold push_segment, landing.
  destruct (String.eqb b EmptyString || String.eqb b ".")%bool;
    [apply rev_involutive|].
  destruct (String.eqb b "..").
  - rewrite <- rev_tl_rev.
    destruct (rev segs) as [|l acc] eqn:E; [reflexivity|].
    assert (Hl : plain l = true).
    { rewrite Forall_forall in H. apply H. apply in_rev. rewrite E.
      now left. }
    apply plain_parts in Hl as (_ & _ & _ & _ & Hdd). now rewrite Hdd.
  - simpl. now rewrite rev_involutive.
Qed.

Lemma render_of_normal (segs : list string) :
  match segs with
  | [] => "/"
  | _ => "/" ++ (join "/" segs ++ EmptyString)
  end = render segs.
Proof.
  destruct segs; [reflexivity|]. now rewrite append_empty.
Qed.

(** [path.join] from a normalized directory with one more segment. *)
Lemma join_render (segs : list string) (b : string) :
  Forall (fun s => plain s = true) segs ->
  has_char "/" b = false ->
  path_join (render segs) b = render (landing segs b).
Proof.
  intros H Hb. unfold path_join.
  change (truthy (render segs)) with true. cbv iota.
  destruct (truthy b) eqn:Et.
  - unfold path_normalize.
    change (render segs ++ "/" ++ b)
      with (String "/" (join "/" segs ++ String "/" b)).
    cbn [truthy truthy_string negb isAbsolute startsWith Ascii.eqb
           Bool.eqb andb].
    assert (Hn : normalizeSegments false
                   (String "/" (join "/" segs ++ String "/" b))
                 = landing segs b).
    { unfold normalizeSegments, segments. cbn [split_on].
      rewrite Ascii.eqb_refl, split_on_around.
      rewrite (split_on_whole "/" b Hb).
      change (fold_left (push_segment false)
                (EmptyString :: (split_on "/" (join "/" segs) ++ [b])%list) [])
        with (fold_left (push_segment false)
                (split_on "/" (join "/" segs) ++ [b])%list []).
      rewrite fold_left_app. cbn [fold_left].
      replace (fold_left (push_segment false) (split_on "/" (join "/" segs)) [])
        with (rev segs); [now apply push_is_landing|].
      destruct segs as [|x segs]; [reflexivity|].
      fold (segments (join "/" (x :: segs))).
      rewrite segments_join; [|assumption|discriminate].
      rewrite fold_push_plain by assumption. now rewrite app_nil_r. }
    rewrite Hn.
    replace (endsWith_slash (String "/" (join "/" segs ++ String "/" b)))
      with false; [apply render_of_normal|].
    symmetry.
    replace (String "/" (join "/" segs ++ String "/" b))
      with (String "/" (join "/" segs ++ "/") ++ b)
      by (simpl; now rewrite append_assoc).
    rewrite endsWith_slash_app by assumption.
    now apply endsWith_slash_clean.
  - assert (b = EmptyString) as -> by (destruct b; [reflexivity|discriminate]).
    unfold path_normalize.
    change (truthy (render segs)) with true.
    change (isAbsolute (render segs)) with true. cbn [negb].
    rewrite normalize_render by assumption.
    change (landing segs EmptyString) with segs.
    destruct segs as [|x segs]; [reflexivity|].
    rewrite render_no_trailing_slash by assumption.
    apply (render_of_normal (x :: segs)).
Qed.

Lemma mem_In (p : string) (ps : list string) : mem p ps = true <-> In p ps.
Proof.
  unfold mem. rewrite existsb_exists. split.
  - intros (x & Hx & He). apply String.eqb_eq in He. now subst.
  - intros H. exists p. split; [assumption|apply String.eqb_refl].
Qed.

Lemma prefixes_split {A} (l pre : list A) :
  In pre (prefixes l) -> exists post, l = (pre ++ post)%list.
Proof.
  revert pre. induction l as [|a l IH]; intros pre H; simpl in H.
  - destruct H as [<-|[]]. now exists [].
  - destruct H as [<-|H]; [now exists (a :: l)|].
    apply in_map_iff in H as (pre' & <- & H).
    destruct (IH _ H) as [post ->]. now exists post.
Qed.

Lemma prefixes_self {A} (l : list A) : In l (prefixes l).
Proof.
  induction l as [|a l IH]; simpl; [now left|].
  right. now apply in_map.
Qed.

Lemma prefixes_removelast {A} (l : list A) : In (removelast l) (prefixes l).
Proof.
  induction l as [|a l IH]; [now left|].
  destruct l as [|b l]; [now left|].
  right. change (removelast (a :: b :: l)) with (a :: removelast (b :: l)).
  now apply in_map.
Qed.

Lemma lineage_render (segs : list string) :
  Forall (fun s => plain s = true) segs ->
  lineage (render segs) = map render (prefixes segs).
Proof. intros H. unfold lineage. now rewrite normalize_render. Qed.

End Paths.

(** ** Persistence *)

Section Persistence.

Variable proc : Process.
Variable reservations : list Reservation.
Variable filename : string.

Lemma saveReservations_run (st : State) :
  saveReservations proc reservations filename st
  = match fs_mkdir_recursive (outputDirOf proc) (disk (world st)) with
    | Ok fs1 =>
        match fs_writeFile (savePathOf proc filename) reservations fs1 with
        | Ok fs2 => (Ok tt, with_disk st fs2)
        | Throw e => (Throw e, with_disk st fs1)
        | Unfinished => (Unfinished, with_disk st fs1)
        end
    | Throw e => (Throw e, st)
    | Unfinished => (Unfinished, st)
    end.
Proof.
  unfold saveReservations, bind, on_disk.
  destruct (fs_mkdir_recursive (outputDirOf proc) (disk (world st)));
    reflexivity.
Qed.

Lemma mkdir_result (fs fs1 : FileSys) :
  fs_mkdir_recursive (outputDirOf proc) fs = Ok fs1 ->
  fs1 = {| dirs := (lineage (outputDirOf proc) ++ dirs fs)%list;
           files := files fs |}.
Proof.
  unfold fs_mkdir_recursive.
  destruct (is_file fs (outputDirOf proc)); [discriminate|].
  destruct (existsb (is_file fs) (lineage (outputDirOf proc)));
    [discriminate|].
  now intros [= <-].
Qed.

(** A path that [path.join] reaches with a base name that is not proper is
    the output directory or its parent, both made by [mkdir]. *)
Lemma improper_name_is_directory (segs : list string) :
  outputDirOf proc = render segs ->
  Forall (fun s => plain s = true) segs ->
  plain (path_basename filename) = false ->
  In (savePathOf proc filename) (lineage (outputDirOf proc)).
Proof.
  intros Hdir Hsegs Hname. unfold savePathOf. rewrite Hdir.
  rewrite join_render; [|assumption|apply basename_cases].
  rewrite lineage_render by assumption. apply in_map.
  unfold landing. unfold plain in Hname.
  rewrite (basename_cases filename) in Hname.
  destruct (String.eqb (path_basename filename) EmptyString) eqn:He;
    [apply prefixes_self|].
  destruct (String.eqb (path_basename filename) ".") eqn:Hd;
    [apply prefixes_self|].
  destruct (String.eqb (path_basename filename) "..") eqn:Hdd;
    [apply prefixes_removelast|].
  destruct (path_basename filename); [discriminate He|discriminate Hname].
Qed.

Lemma proper_name_lands_inside (segs : list string) :
  outputDirOf proc = render segs ->
  Forall (fun s => plain s = true) segs ->
  plain (path_basename filename) = true ->
  savePathOf proc filename = render (segs ++ [path_basename filename])
  /\ parent_dir (savePathOf proc filename) = outputDirOf proc
  /\ ~ In (savePathOf proc filename) (lineage (outputDirOf proc)).
Proof.
  intros Hdir Hsegs Hname.
  assert (Hall : Forall (fun s => plain s = true)
                   (segs ++ [path_basename filename])).
  { apply Forall_app. split; [assumption|]. now constructor. }
  assert (Hpath : savePathOf proc filename
                  = render (segs ++ [path_basename filename])).
  { unfold savePathOf. rewrite Hdir.
    rewrite join_render; [|assumption|apply basename_cases].
    unfold landing.
    apply plain_parts in Hname as (_ & _ & He & Hd & Hdd).
    now rewrite He, Hd, Hdd. }
  split; [exact Hpath|]. split.
  - rewrite Hpath, Hdir. unfold parent_dir.
    rewrite normalize_render by assumption. now rewrite removelast_last.
  - rewrite Hpath, Hdir, lineage_render by assumption.
    intros Hin. apply in_map_iff in Hin as (pre & Hrender & Hpre).
    apply prefixes_split in Hpre as [post Hpost].
    assert (Hplain : Forall (fun s => plain s = true) pre).
    { rewrite Hpost in Hsegs. now apply Forall_app in Hsegs. }
    apply (f_equal (normalizeSegments false)) in Hrender.
    rewrite !normalize_render in Hrender by assumption.
    apply (f_equal (@List.length string)) in Hrender.
    rewrite Hpost, !length_app in Hrender. simpl in Hrender. lia.
Qed.

End Persistence.

(** C10: [saveReservations] makes the output directory, then writes at
    [path.join(outputDir, path.basename(filename))]. The base name holds no
    [/]: the directories of [filename] are dropped. Whenever the call
    succeeds, the records are in the file at that path, the output
    directory exists and is the directory that holds the file; whenever it
    fails, no file has changed; and it does succeed for a proper base name
    when no file stands in the way of the directory and the target is not
    a directory. *)
Theorem C10_saved_inside_output_dir (proc : Process)
  (reservations : list Reservation) (filename : string) (st : State) :
  let outputDir := outputDirOf proc in
  let name := path_basename filename in
  let filepath := path_join outputDir name in
  let run := saveReservations proc reservations filename st in
  has_char "/" name = false
  /\ (fst run = Ok tt ->
      files (disk (world (snd run)))
      = (filepath, reservations)
        :: filter (fun f => negb (String.eqb (fst f) filepath))
             (files (disk (world st)))
      /\ plain name = true
      /\ parent_dir filepath = outputDir
      /\ mem outputDir (dirs (disk (world (snd run)))) = true)
  /\ (fst run <> Ok tt ->
      files (disk (world (snd run))) = files (disk (world st)))
  /\ (plain name = true ->
      existsb (is_file (disk (world st))) (lineage outputDir) = false ->
      mem filepath (dirs (disk (world st))) = false ->
      fst run = Ok tt).
Proof.
  intros outputDir name filepath run.
  destruct (resolve_render (cwd proc)
              (or_else (env proc "OUTPUT_DIR") "output"))
    as (segs & Hdir & Hsegs).
  fold (outputDirOf proc) in Hdir.
  change (path_join outputDir name) with (savePathOf proc filename)
    in filepath.
  assert (Hself : In outputDir (lineage outputDir)).
  { unfold outputDir. rewrite Hdir at 1.
    rewrite Hdir, lineage_render by assumption.
    apply in_map, prefixes_self. }
  split; [apply basename_cases|].
  unfold run. rewrite saveReservations_run.
  fold outputDir. fold filepath.
  destruct (fs_mkdir_recursive outputDir (disk (world st)))
    as [fs1|e|] eqn:Emk.
  2:{ split; [discriminate|]. split; [reflexivity|].
      intros _ Hfree _. exfalso. unfold fs_mkdir_recursive in Emk.
      rewrite Hfree in Emk.
      destruct (is_file (disk (world st)) outputDir) eqn:Ef; [|discriminate].
      assert (Hex : existsb (is_file (disk (world st))) (lineage outputDir)
                    = true).
      { apply existsb_exists. now exists outputDir. }
      congruence. }
  2:{ unfold fs_mkdir_recursive in Emk.
      destruct (is_file (disk (world st)) outputDir); [discriminate|].
      destruct (existsb _ _); discriminate. }
  pose proof (mkdir_result proc _ _ Emk) as Hfs1. fold outputDir in Hfs1.
  unfold fs_writeFile.
  destruct (mem filepath (dirs fs1)) eqn:Edir.
  { split; [discriminate|]. split; [now rewrite Hfs1|].
    intros Hname _ Hnodir. exfalso.
    destruct (proper_name_lands_inside proc filename segs Hdir Hsegs Hname)
      as (_ & _ & Hout).
    apply mem_In in Edir. rewrite Hfs1 in Edir. cbn [dirs] in Edir.
    apply in_app_or in Edir as [Hin|Hin]; [now apply Hout|].
    apply mem_In in Hin. unfold filepath in Hin, Hnodir. congruence. }
  assert (Hname : plain name = true).
  { destruct (plain name) eqn:E; [reflexivity|]. exfalso.
    pose proof (improper_name_is_directory proc filename segs Hdir Hsegs E)
      as Hin.
    assert (Hmem : mem filepath (dirs fs1) = true).
    { apply mem_In. rewrite Hfs1. cbn [dirs]. apply in_or_app. now left. }
    congruence. }
  destruct (proper_name_lands_inside proc filename segs Hdir Hsegs Hname)
    as (_ & Hparent & _).
  fold outputDir filepath in Hparent.
  assert (Hpar : mem (parent_dir filepath) (dirs fs1) = true).
  { rewrite Hparent. apply mem_In. rewrite Hfs1. cbn [dirs].
    apply in_or_app. now left. }
  rewrite Hpar. cbn [negb fst snd with_disk world disk files dirs].
  split; [|split; [intros H; now elim H|reflexivity]].
  intros _. rewrite Hfs1. cbn [files dirs].
  repeat split; try assumption.
  apply mem_In. apply in_or_app. now left.
Qed.

Lemma C10_saved_inside_output_dir_witness :
  files (disk (world (snd (saveReservations appProcess [rec1; rec2]
                             "../../etc/reservations-2026.json"
                             acmeState))))
  = [("/app/output/reservations-2026.json", [rec1; rec2])].
Proof.
  destruct (C10_saved_inside_output_dir appProcess [rec1; rec2]
              "../../etc/reservations-2026.json" acmeState)
    as (_ & Hsaved & _).
  destruct (Hsaved eq_refl) as (Hfiles & _).
  rewrite Hfiles. reflexivity.
Defined.

(* ================================================================= *)
(** * Further properties of the client *)

(** ** The cookie jar, continued *)

(** X1: a [Set-Cookie] value with an empty name (the header is empty or
    begins with [=]) empties the jar: every held cookie starts with the
    empty string, so all are dropped and only the new entry is left. *)
Theorem empty_name_clears_jar (cookies : list string) (cookie : string) :
  cookieName cookie = EmptyString ->
  storeCookie cookies cookie = [cookiePair cookie].
Proof.
  intros H. unfold storeCookie. rewrite H.
  replace (filter (fun c => negb (startsWith c EmptyString)) cookies)
    with (@nil string); [reflexivity|].
  induction cookies as [|c cookies IH]; [reflexivity|exact IH].
Qed.

Lemma empty_name_clears_jar_witness :
  storeCookie ["TrackOwner=xyz"; "lang=en"] "=orphan; Path=/" = ["=orphan"].
Proof. apply (empty_name_clears_jar _ "=orphan; Path=/"). reflexivity. Defined.

Lemma storeCookie_length (cookies : list string) (cookie : string) :
  (List.length (storeCookie cookies cookie) <= S (List.length cookies))%nat.
Proof.
  unfold storeCookie. rewrite length_app. simpl.
  pose proof (filter_length_le
                (fun c => negb (startsWith c (cookieName cookie))) cookies).
  lia.
Qed.

(** X2: the jar grows by at most one entry per [Set-Cookie] header, and
    the pair of the header applied last is the last entry of the jar. *)
Theorem jar_growth (cookies setCookies : list string) (cookie : string) :
  (List.length (storeCookies cookies setCookies)
   <= List.length cookies + List.length setCookies)%nat
  /\ last (storeCookies cookies (setCookies ++ [cookie])) EmptyString
     = cookiePair cookie.
Proof.
  split.
  - revert cookies. induction setCookies as [|h hs IH]; intros cookies.
    + simpl. lia.
    + change (storeCookies cookies (h :: hs))
        with (storeCookies (storeCookie cookies h) hs).
      specialize (IH (storeCookie cookies h)).
      pose proof (storeCookie_length cookies h).
      cbn [List.length]. lia.
  - rewrite storeCookies_snoc. unfold storeCookie. apply last_last.
Qed.

(** ** Request headers *)

Section RequestHeaders.

Lemma get_header_absent (k : string) (hs : Headers) :
  ~ In k (map fst hs) -> get_header k hs = None.
Proof.
  induction hs as [|[k0 v0] hs IH]; simpl; intros H; [reflexivity|].
  destruct (String.eqb k0 k) eqn:E.
  - apply String.eqb_eq in E. exfalso. apply H. now left.
  - apply IH. intros Hin. apply H. now right.
Qed.

Lemma get_spread_some (k v : string) (extra base : Headers) :
  NoDup (map fst extra) ->
  get_header k extra = Some v ->
  get_header k (spread base extra) = Some v.
Proof.
  unfold spread. revert base.
  induction extra as [|[k0 v0] extra IH]; intros base Hnd H; simpl in *;
    [discriminate|].
  inversion Hnd as [|? ? Hnin Hnd']; subst.
  destruct (String.eqb k0 k) eqn:E.
  - injection H as ->. apply String.eqb_eq in E. subst k0.
    change (fold_left (fun acc kv => set_header (fst kv) (snd kv) acc)
              extra (set_header k v base))
      with (spread (set_header k v base) extra).
    rewrite get_spread by now apply get_header_absent.
    now rewrite get_set_header, String.eqb_refl.
  - now apply IH.
Qed.

(** Outside the two body headers, what is sent is the session headers
    with the caller's headers spread over them. *)
Lemma requestHeaders_key (c : TrackHSClient) (o : Options)
  (b : option string) (k : string) :
  k <> "content-type" ->
  k <> "content-length" ->
  get_header k (requestHeaders c o b)
  = get_header k (spread (sessionHeaders c) (o_headers o)).
Proof.
  intros Hct Hcl.
  apply String.eqb_neq in Hct, Hcl.
  rewrite String.eqb_sym in Hct. rewrite String.eqb_sym in Hcl.
  unfold requestHeaders. fold (sessionHeaders c).
  destruct b as [b|]; [|reflexivity].
  destruct (truthy b); [|reflexivity].
  rewrite get_set_header, Hcl.
  destruct (negb _); [|reflexivity].
  now rewrite get_set_header, Hct.
Qed.

End RequestHeaders.

(** X3: the caller's headers win. A header that the [options] of
    [makeRequest] set (other than the two body headers) is sent with the
    caller's value, whatever the defaults, the jar and the token say. *)
Theorem caller_headers_win (c : TrackHSClient) (o : Options)
  (b : option string) (k v : string) :
  NoDup (map fst (o_headers o)) ->
  get_header k (o_headers o) = Some v ->
  k <> "content-type" ->
  k <> "content-length" ->
  get_header k (headers (buildRequest c o b)) = Some v.
Proof.
  intros Hnd Hk Hct Hcl. cbn [buildRequest headers].
  rewrite requestHeaders_key by assumption.
  now apply get_spread_some.
Qed.

Lemma caller_headers_win_witness :
  get_header "accept" (headers (buildRequest acmeClient loginPageOptions None))
  = Some browserAccept.
Proof.
  apply caller_headers_win; try discriminate; [|reflexivity].
  repeat (constructor;
          [simpl; intros H;
           repeat (destruct H as [H|H]; [discriminate H|]); exact H|]).
  constructor.
Defined.

(** X4: a request with a truthy body carries the body, its byte length as
    [content-length], and a [content-type] that is the caller's when the
    caller gives a truthy one and [application/json] when the caller gives
    none; an empty body is no body at all. *)
Theorem body_headers (c : TrackHSClient) (o : Options) (b : string) :
  buildRequest c o (Some EmptyString) = buildRequest c o None
  /\ (truthy b = true ->
      let req := buildRequest c o (Some b) in
      postData req = Some b
      /\ get_header "content-length" (headers req)
         = Some (Z_to_string (byteLength b))
      /\ (get_header "content-type" (o_headers o) = None ->
          get_header "content-type" (headers req) = Some "application/json")
      /\ (forall v,
             NoDup (map fst (o_headers o)) ->
             get_header "content-type" (o_headers o) = Some v ->
             truthy v = true ->
             get_header "content-type" (headers req) = Some v)).
Proof.
  split; [reflexivity|]. intros Hb req. unfold req.
  cbn [buildRequest headers postData]. unfold requestHeaders.
  fold (sessionHeaders c). cbn [truthy truthy_option]. rewrite Hb.
  split; [reflexivity|]. split; [|split].
  - now rewrite get_set_header.
  - intros Hnone. rewrite get_set_header. cbn [String.eqb Ascii.eqb Bool.eqb].
    assert (H : get_header "content-type"
                  (spread (sessionHeaders c) (o_headers o)) = None).
    { rewrite get_spread by assumption. unfold sessionHeaders.
      destruct (token c) as [t|]; [destruct (truthy t)|];
        destruct (0 <? Z.of_nat (List.length (cookies c)));
        repeat rewrite get_set_header; reflexivity. }
    rewrite H. cbn [truthy truthy_option negb]. now rewrite get_set_header.
  - intros v Hnd Hv Htruthy. rewrite get_set_header.
    cbn [String.eqb Ascii.eqb Bool.eqb].
    rewrite (get_spread_some "content-type" v _ _ Hnd Hv).
    cbn [truthy truthy_option]. rewrite Htruthy. cbn [negb].
    now apply get_spread_some.
Qed.

Lemma body_headers_witness :
  get_header "content-type"
    (headers (buildRequest acmeClient (credentialOptions acmeClient)
                (Some "username=a&password=b&security=c")))
  = Some "application/x-www-form-urlencoded"
  /\ get_header "content-length"
       (headers (buildRequest acmeClient (credentialOptions acmeClient)
                   (Some "username=a&password=b&security=c")))
     = Some "32".
Proof.
  destruct (body_headers acmeClient (credentialOptions acmeClient)
              "username=a&password=b&security=c") as (_ & H).
  destruct (H eq_refl) as (_ & Hlen & _ & Htype).
  split; [|exact Hlen].
  apply Htype; [|reflexivity|reflexivity].
  repeat (constructor;
          [simpl; intros Hin;
           repeat (destruct Hin as [Hin|Hin]; [discriminate Hin|]);
           exact Hin|]).
  constructor.
Defined.

(** X5: when the caller sets neither header, the request carries the jar
    as one [cookie] header joined with [; ] exactly when the jar is not
    empty, and [authorization: Bearer token] exactly when a non-empty token
    is held. *)
Theorem session_headers (c : TrackHSClient) (o : Options)
  (b : option string) :
  get_header "cookie" (o_headers o) = None ->
  get_header "authorization" (o_headers o) = None ->
  let hs := headers (buildRequest c o b) in
  get_header "cookie" hs
  = (if 0 <? Z.of_nat (List.length (cookies c))
     then Some (join "; " (cookies c)) else None)
  /\ get_header "authorization" hs
     = match token c with
       | Some t => if truthy t then Some ("Bearer " ++ t) else None
       | None => None
       end.
Proof.
  intros Hc Ha hs. unfold hs. cbn [buildRequest headers].
  rewrite !requestHeaders_key by discriminate.
  rewrite !get_spread by assumption. unfold sessionHeaders.
  destruct (token c) as [t|]; [destruct (truthy t)|];
    destruct (0 <? Z.of_nat (List.length (cookies c)));
    repeat rewrite get_set_header; split; reflexivity.
Qed.

Lemma session_headers_witness :
  get_header "cookie"
    (headers (buildRequest (with_cookies acmeClient ["a=1"; "b=2"])
                (tokenOptions acmeClient) None))
  = Some "a=1; b=2"
  /\ get_header "authorization"
       (headers (buildRequest (with_cookies acmeClient ["a=1"; "b=2"])
                   (tokenOptions acmeClient) None))
     = None.
Proof.
  exact (session_headers (with_cookies acmeClient ["a=1"; "b=2"])
           (tokenOptions acmeClient) None eq_refl eq_refl).
Defined.

(** ** The verdict on the credential POST, continued *)

Section Redirect.

Lemma startsWith_app_l (s a b : string) :
  startsWith s (a ++ b) = true -> startsWith s a = true.
Proof.
  revert s. induction a as [|x a IH]; intros s H; [reflexivity|].
  simpl in *. destruct s as [|y s]; [discriminate|].
  apply andb_true_iff in H as [Hx Hs]. rewrite Hx. simpl. now apply IH.
Qed.

Lemma includes_app_l (s a b : string) :
  includes s (a ++ b) = true -> includes s a = true.
Proof.
  induction s as [|c s IH]; simpl; intros H.
  - apply orb_true_iff in H as [H|H]; [|discriminate].
    apply startsWith_app_l in H. now rewrite H.
  - apply orb_true_iff in H as [H|H].
    + apply startsWith_app_l in H. now rewrite H.
    + rewrite (IH H). apply orb_true_r.
Qed.

Lemma dashboard_test_is_owner_test (l : string) :
  includes l "/owner/dashboard" || includes l "/owner/"
  = includes l "/owner/".
Proof.
  destruct (includes l "/owner/dashboard") eqn:E; [|reflexivity].
  symmetry. apply (includes_app_l l "/owner/" "dashboard"). exact E.
Qed.

End Redirect.

(** X6: for a response with status 302 and a [Location] header, the
    verdict is success exactly when the location holds [/owner/]; the test
    for [/owner/dashboard] adds nothing, so a redirect back to the login
    path [/owner/] itself counts as a successful login. *)
Theorem redirect_to_owner_is_success (res : Response) (st : State)
  (l : string) :
  status res = 302 ->
  location res = Some l ->
  (loginVerdict res st = (Ok true, st) <-> includes l "/owner/" = true)
  /\ (includes l "/owner/" = false ->
      loginVerdict res st
      = (Throw (Error ("Login failed with status " ++ Z_to_string 302)), st)).
Proof.
  intros Hs Hl. unfold loginVerdict.
  rewrite Hs, Hl, dashboard_test_is_owner_test.
  cbn [Z.eqb Pos.eqb andb].
  destruct (includes l "/owner/") eqn:E.
  - replace (truthy l) with true
      by (symmetry; eapply includes_nonempty; eauto; reflexivity).
    split; [split; reflexivity|discriminate].
  - rewrite andb_false_r. split; [|reflexivity].
    split; [intros H; discriminate H|discriminate].
Qed.

Lemma redirect_to_owner_is_success_witness :
  fst (login bouncingPortal "owner@example.com" "wrong" acmeState) = Ok true.
Proof.
  assert (H : login bouncingPortal "owner@example.com" "wrong" acmeState
              = loginVerdict
                  {| status := 302; location := Some "/owner/";
                     set_cookie := []; data := Text EmptyString |}
                  (snd (login bouncingPortal "owner@example.com" "wrong"
                          acmeState))) by reflexivity.
  rewrite H.
  destruct (redirect_to_owner_is_success
              {| status := 302; location := Some "/owner/";
                 set_cookie := []; data := Text EmptyString |}
              (snd (login bouncingPortal "owner@example.com" "wrong"
                      acmeState)) "/owner/" eq_refl eq_refl) as [[_ Hok] _].
  now rewrite (Hok eq_refl).
Defined.

(** ** Form encoding *)

Section FormEncoding.

(** The encoding of one character. *)
Lemma urlencode_cons (c : ascii) (s : string) :
  urlencode (String c s)
  = (if unreserved c then String c EmptyString
     else if Ascii.eqb c " " then "+"
     else String "%" (String (hex_digit (nat_of_ascii c / 16)%nat)
                        (String (hex_digit (nat_of_ascii c mod 16)%nat)
                           EmptyString)))
    ++ urlencode s.
Proof. reflexivity. Qed.

Lemma decode_char (c : ascii) (rest : string) :
  urldecode (urlencode (String c EmptyString) ++ rest)
  = match urldecode rest with
    | Some r => Some (String c r)
    | None => None
    end.
Proof.
  destruct c as [[|] [|] [|] [|] [|] [|] [|] [|]]; reflexivity.
Qed.

Lemma safe_char (c : ascii) :
  every form_safe (urlencode (String c EmptyString)) = true.
Proof.
  destruct c as [[|] [|] [|] [|] [|] [|] [|] [|]]; reflexivity.
Qed.

Lemma urlencode_app (a b : string) :
  urlencode (a ++ b) = urlencode a ++ urlencode b.
Proof.
  induction a as [|c a IH]; [reflexivity|].
  change (String c a ++ b) with (String c (a ++ b)).
  rewrite !urlencode_cons, IH. now rewrite append_assoc.
Qed.

Lemma every_app (f : ascii -> bool) (a b : string) :
  every f (a ++ b) = every f a && every f b.
Proof.
  induction a as [|c a IH]; [reflexivity|]. simpl.
  now rewrite IH, andb_assoc.
Qed.

Lemma urlencode_safe (s : string) : every form_safe (urlencode s) = true.
Proof.
  induction s as [|c s IH]; [reflexivity|].
  change (String c s) with (String c EmptyString ++ s).
  now rewrite urlencode_app, every_app, safe_char, IH.
Qed.

Lemma urldecode_urlencode (s : string) : urldecode (urlencode s) = Some s.
Proof.
  induction s as [|c s IH]; [reflexivity|].
  change (String c s) with (String c EmptyString ++ s).
  now rewrite urlencode_app, decode_char, IH.
Qed.

Lemma every_excludes (f : ascii -> bool) (sep : ascii) (s : string) :
  f sep = false -> every f s = true -> has_char sep s = false.
Proof.
  intros Hf. induction s as [|c s IH]; [reflexivity|]. simpl.
  intros H. apply andb_true_iff in H as [Hc Hs].
  rewrite (IH Hs), orb_false_r.
  destruct (Ascii.eqb c sep) eqn:E; [|reflexivity].
  apply Ascii.eqb_eq in E. subst c. congruence.
Qed.

Lemma split_head_app (sep : ascii) (a b : string) :
  has_char sep a = false -> split_head sep (a ++ String sep b) = a.
Proof.
  induction a as [|c a IH]; simpl.
  - now rewrite Ascii.eqb_refl.
  - destruct (Ascii.eqb c sep); simpl; [discriminate|].
    intros H. now rewrite IH.
Qed.

Lemma split_rest_app (sep : ascii) (a b : string) :
  has_char sep a = false -> split_rest sep (a ++ String sep b) = b.
Proof.
  induction a as [|c a IH]; simpl.
  - now rewrite Ascii.eqb_refl.
  - destruct (Ascii.eqb c sep); simpl; [discriminate|].
    intros H. now rewrite IH.
Qed.

Lemma has_char_app (sep : ascii) (a b : string) :
  has_char sep (a ++ b) = has_char sep a || has_char sep b.
Proof.
  induction a as [|c a IH]; [reflexivity|]. simpl.
  now rewrite IH, orb_assoc.
Qed.

Lemma split_on_concat (sep : ascii) (parts : list string) :
  Forall (fun x => has_char sep x = false) parts ->
  parts <> [] ->
  split_on sep (String.concat (String sep EmptyString) parts) = parts.
Proof.
  induction parts as [|x parts IH]; intros H Hne; [congruence|].
  inversion H as [|? ? Hx Hrest]; subst.
  destruct parts as [|y parts].
  - simpl. now apply split_on_whole.
  - change (String.concat (String sep EmptyString) (x :: y :: parts))
      with (x ++ String sep
              (String.concat (String sep EmptyString) (y :: parts))).
    rewrite split_on_app by assumption. f_equal.
    apply IH; [assumption|discriminate].
Qed.

Lemma decode_encodeField (kv : string * string) :
  decodeField (encodeField kv) = Some kv.
Proof.
  destruct kv as [k v]. unfold decodeField, encodeField. cbn [fst snd].
  assert (Hk : has_char "=" (urlencode k) = false)
    by (apply (every_excludes form_safe); [reflexivity|apply urlencode_safe]).
  change (urlencode k ++ "=" ++ urlencode v)
    with (urlencode k ++ String "=" (urlencode v)).
  rewrite split_head_app, split_rest_app by assumption.
  now rewrite !urldecode_urlencode.
Qed.

Lemma encodeField_clean (kv : string * string) :
  has_char "&" (encodeField kv) = false /\ truthy (encodeField kv) = true.
Proof.
  destruct kv as [k v]. unfold encodeField. cbn [fst snd]. split.
  - rewrite !has_char_app.
    rewrite !(every_excludes form_safe "&" _ eq_refl (urlencode_safe _)).
    reflexivity.
  - destruct (urlencode k); reflexivity.
Qed.

End FormEncoding.

Lemma urlencode_injective (s t : string) :
  urlencode s = urlencode t -> s = t.
Proof.
  intros H. apply (f_equal urldecode) in H.
  rewrite !urldecode_urlencode in H. now injection H.
Qed.

(** [urlencode] writes only letters, digits, [*-._], [+] and [%], and
    it loses nothing: decoding the encoded text gives the text back. *)
Theorem urlencode_round_trip (s : string) :
  every form_safe (urlencode s) = true
  /\ urldecode (urlencode s) = Some s.
Proof. split; [apply urlencode_safe|apply urldecode_urlencode]. Qed.

(** X7: the form body of the credential POST keeps its fields: reading
    [formEncode fields] back, by splitting at [&] and at the first [=] and
    decoding, gives [fields], whatever characters the username and the
    password hold. *)
Theorem form_round_trip (fields : list (string * string))
  (username password securityToken : string) :
  formDecode (formEncode fields) = Some fields
  /\ formDecode (credentialForm username password securityToken)
     = Some [("username", username); ("password", password);
             ("security", securityToken)].
Proof.
  assert (H : forall fs, formDecode (formEncode fs) = Some fs).
  { intros fs. unfold formDecode, formEncode, join.
    fold encodeField.
    destruct fs as [|f fs]; [reflexivity|].
    replace (truthy (String.concat "&" (map encodeField (f :: fs))))
      with true.
    - change "&" with (String "&"%char EmptyString).
      rewrite split_on_concat.
      + induction (f :: fs) as [|x xs IH]; [reflexivity|].
        cbn [map decodeFields]. now rewrite decode_encodeField, IH.
      + apply Forall_forall. intros x Hx.
        apply in_map_iff in Hx as (kv & <- & _). apply encodeField_clean.
      + discriminate.
    - symmetry. cbn [map]. destruct (encodeField_clean f) as [_ Ht].
      destruct (map encodeField fs); simpl;
        destruct (encodeField f); try discriminate; reflexivity. }
  split; [apply H|]. unfold credentialForm. apply H.
Qed.

(** ** The security token, continued *)

Section TokenShape.

Variable f : ascii -> bool.

Lemma greedy_chars (k : charset) (rest : string -> string -> option string)
  (s taken r : string) :
  (forall c, in_charset k c = true -> f c = true) ->
  greedy k rest taken s = Some r ->
  exists taken' s',
    rest taken' s' = Some r
    /\ (every f taken = true -> every f taken' = true).
Proof.
  intros Hk. revert taken.
  induction s as [|c s IH]; intros taken H; simpl in H.
  - now exists taken, EmptyString.
  - destruct (in_charset k c) eqn:Ec.
    + destruct (greedy k rest (taken ++ String c EmptyString) s) eqn:E.
      * injection H as ->. apply IH in E as (t' & s' & Hr & Ht).
        exists t', s'. split; [assumption|]. intros Htaken. apply Ht.
        rewrite every_app, Htaken. simpl. now rewrite (Hk c Ec).
      * now exists taken, (String c s).
    + now exists taken, (String c s).
Qed.

Lemma exec_at_chars (p : pattern) (cap s t : string) :
  (forall k, In (Group k) p ->
             forall c, in_charset k c = true -> f c = true) ->
  exec_at p cap s = Some t ->
  every f cap = true ->
  every f t = true.
Proof.
  revert cap s. induction p as [|x p IH]; intros cap s Hg H Hcap; simpl in H.
  - now injection H as <-.
  - assert (Hg' : forall k, In (Group k) p ->
                            forall c, in_charset k c = true -> f c = true)
      by (intros k Hin; apply Hg; now right).
    destruct x as [text|k|k|w|k].
    + destruct (eat text s); [|discriminate]. eapply IH; eauto.
    + destruct s as [|c s]; [discriminate|].
      destruct (in_charset k c); [|discriminate]. eapply IH; eauto.
    + apply greedy_inv in H as (t' & s' & H & _). eapply IH; eauto.
    + destruct (eat_member w s) as [s1|]; [|discriminate].
      apply greedy_members_inv in H as (s' & H). eapply IH; eauto.
    + destruct s as [|c s]; [discriminate|].
      destruct (in_charset k c) eqn:Ec; [|discriminate].
      assert (Hk : forall c, in_charset k c = true -> f c = true)
        by (apply Hg; now left).
      apply (greedy_chars k _ s _ t Hk) in H as (t' & s' & H & Ht).
      eapply IH; [exact Hg'|exact H|]. apply Ht. simpl.
      now rewrite (Hk c Ec).
Qed.

End TokenShape.

Lemma js_match_somewhere (p : pattern) (s t : string) :
  js_match p s = Some t -> exists s', exec_at p EmptyString s' = Some t.
Proof.
  induction s as [|c s IH]; simpl; intros H.
  - destruct (exec_at p EmptyString EmptyString) eqn:E; [|discriminate].
    injection H as ->. eauto.
  - destruct (exec_at p EmptyString (String c s)) eqn:E.
    + injection H as ->. eauto.
    + auto.
Qed.

Lemma first_token_from (ps : list pattern) (html t : string) :
  first_token ps html = Some t ->
  truthy t = true /\ exists p, In p ps /\ js_match p html = Some t.
Proof.
  induction ps as [|p ps IH]; simpl; intros H; [discriminate|].
  destruct (js_match p html) as [g|] eqn:E.
  - destruct (truthy g) eqn:Eg.
    + injection H as ->. split; [assumption|]. exists p. auto.
    + destruct (IH H) as (Ht & q & Hq & Hm). split; [assumption|].
      exists q. auto.
  - destruct (IH H) as (Ht & q & Hq & Hm). split; [assumption|].
    exists q. auto.
Qed.

Lemma patterns_capture_unquoted (p : pattern) (k : charset) :
  In p patterns -> In (Group k) p -> k = unquoted.
Proof.
  intros Hp Hk.
  repeat (destruct Hp as [<-|Hp];
          [repeat (destruct Hk as [Hk|Hk];
                   [try discriminate Hk; now injection Hk|]);
           destruct Hk|]).
  destruct Hp.
Qed.

(** X8: a token that [extractSecurityToken] returns is never empty and
    holds neither a double nor a single quote; the call sends nothing and
    leaves the client as it was. *)
Theorem token_shape (html t : string) (st st' : State) :
  extractSecurityToken (Text html) st = (Ok t, st') ->
  st' = st
  /\ truthy t = true
  /\ has_char "034" t = false
  /\ has_char "'" t = false.
Proof.
  unfold extractSecurityToken.
  destruct (first_token patterns html) as [tok|] eqn:E; [|discriminate].
  intros [= -> <-]. split; [reflexivity|].
  apply first_token_from in E as (Ht & p & Hp & Hm).
  split; [assumption|].
  apply js_match_somewhere in Hm as [s' Hexec].
  assert (Hall : every (in_charset unquoted) t = true).
  { apply (exec_at_chars (in_charset unquoted) p EmptyString s' t);
      [|assumption|reflexivity].
    intros k Hk c Hc. now rewrite <- (patterns_capture_unquoted p k Hp Hk). }
  split; apply (every_excludes (in_charset unquoted)); auto.
Qed.

Lemma token_shape_witness :
  acmeState = acmeState
  /\ truthy "abc123" = true
  /\ has_char "034" "abc123" = false
  /\ has_char "'" "abc123" = false.
Proof.
  exact (token_shape sampleLoginPage "abc123" acmeState acmeState eq_refl).
Defined.

(** ** The login exchange *)

Section LoginExchange.

Variable net : Server.

Lemma loginVerdict_state (res : Response) (st : State) :
  snd (loginVerdict res st) = st.
Proof.
  unfold loginVerdict.
  destruct (_ && _); [reflexivity|]. destruct (_ && _); reflexivity.
Qed.

(** [login], reply by reply. *)
Lemma login_cases (username password : string) (st : State) :
  let get := buildRequest (this st) loginPageOptions None in
  login net username password st
  = match net (sent (world st)) get with
    | Reject m =>
        (Throw (Error m),
         {| this := this st; world := log_request (world st) get |})
    | Respond page =>
        let st1 := received st get page in
        if negb (status page =? 200) then
          (Throw (Error ("Failed to fetch login page. Status: "
                         ++ Z_to_string (status page))), st1)
        else
          match data page with
          | Text html =>
              match first_token patterns html with
              | Some tok =>
                  let req := buildRequest (this st1)
                               (credentialOptions (this st1))
                               (Some (credentialForm username password tok)) in
                  match net (sent (world st1)) req with
                  | Reject m =>
                      (Throw (Error m),
                       {| this := this st1;
                          world := log_request (world st1) req |})
                  | Respond post => loginVerdict post (received st1 req post)
                  end
              | None =>
                  (Throw (Error "Could not extract security token from login page"),
                   st1)
              end
          | Json _ => (Throw (TypeError "html.match is not a function"), st1)
          | Null => (Throw (null_read "match"), st1)
          end
    end.
Proof.
  intros get. unfold login. unfold bind at 1. unfold makeRequest at 1.
  fold get.
  destruct (net (sent (world st)) get) as [page|m]; [|reflexivity].
  destruct (negb (status page =? 200)); [reflexivity|].
  unfold bind at 1. unfold extractSecurityToken.
  destruct (data page) as [html|o|]; try reflexivity.
  destruct (first_token patterns html) as [tok|]; [|reflexivity].
  unfold ret at 1. unfold bind at 1. unfold get_this at 1.
  unfold bind at 1. unfold makeRequest at 1.
  cbn [this world].
  destruct (net _ _); reflexivity.
Qed.

End LoginExchange.

(** X9: [login] sends the GET of the login page and then at most the
    POST of the credentials, both to [/owner/] on the client's host. The
    POST is sent only after a 200 login page from which a security token
    was extracted, and its body is the form of the username, the password
    and that token. Whatever happens, [login] leaves the bearer token and
    the disk as they were. *)
Theorem login_request_discipline (net : Server) (username password : string)
  (st : State) :
  let st' := snd (login net username password st) in
  let get := buildRequest (this st) loginPageOptions None in
  (since st st' = [get]
   \/ exists page html tok,
        net (sent (world st)) get = Respond page
        /\ status page = 200
        /\ data page = Text html
        /\ first_token patterns html = Some tok
        /\ since st st'
           = [get;
              buildRequest (this (received st get page))
                (credentialOptions (this (received st get page)))
                (Some (credentialForm username password tok))])
  /\ Forall (fun q => path q = "/owner/" /\ hostname q = baseUrl (this st))
       (since st st')
  /\ token (this st') = token (this st)
  /\ disk (world st') = disk (world st).
Proof.
  intros st' get. unfold st'. rewrite login_cases. fold get.
  destruct (net (sent (world st)) get) as [page|m] eqn:Eget.
  2:{ cbn [snd]. rewrite (since_app st _ [get]) by reflexivity.
      repeat split; auto; repeat constructor. }
  cbv zeta.
  assert (Hone : since st (received st get page) = [get])
    by (apply since_app; reflexivity).
  assert (Hget : Forall (fun q => path q = "/owner/"
                                  /\ hostname q = baseUrl (this st)) [get])
    by (repeat constructor).
  destruct (status page =? 200) eqn:Es; cbn [negb];
    [|cbn [snd]; rewrite Hone; repeat split; auto].
  destruct (data page) as [html|o|] eqn:Ed;
    try (cbn [snd]; rewrite Hone; repeat split; auto).
  destruct (first_token patterns html) as [tok|] eqn:Et;
    [|cbn [snd]; rewrite Hone; repeat split; auto].
  set (st1 := received st get page).
  set (req := buildRequest (this st1) (credentialOptions (this st1))
                (Some (credentialForm username password tok))).
  assert (Htwo : forall stx, sent (world stx) = (sent (world st1) ++ [req])%list ->
                             since st stx = [get; req]).
  { intros stx Hx. apply since_app. rewrite Hx. unfold st1.
    cbn [received world sent log_request]. now rewrite <- app_assoc. }
  assert (Hboth : Forall (fun q => path q = "/owner/"
                                   /\ hostname q = baseUrl (this st))
                    [get; req])
    by (repeat constructor).
  assert (Hsecond : forall stx,
             sent (world stx) = (sent (world st1) ++ [req])%list ->
             token (this stx) = token (this st) ->
             disk (world stx) = disk (world st) ->
             (since st stx = [get]
              \/ exists page0 html0 tok0,
                   Respond page = Respond page0
                   /\ status page0 = 200
                   /\ data page0 = Text html0
                   /\ first_token patterns html0 = Some tok0
                   /\ since st stx
                      = [get;
                         buildRequest (this (received st get page0))
                           (credentialOptions (this (received st get page0)))
                           (Some (credentialForm username password tok0))])
             /\ Forall (fun q => path q = "/owner/"
                                 /\ hostname q = baseUrl (this st))
                  (since st stx)
             /\ token (this stx) = token (this st)
             /\ disk (world stx) = disk (world st)).
  { intros stx Hx Htok Hdisk. rewrite (Htwo stx Hx).
    split; [|repeat split; auto].
    right. exists page, html, tok. apply Z.eqb_eq in Es. repeat split; auto. }
  destruct (net (sent (world st1)) req) as [post|m].
  - rewrite loginVerdict_state. now apply Hsecond.
  - cbn [snd]. now apply Hsecond.
Qed.

(** X10: when the login exchange reaches the credential POST, the jar
    ends as the cookies of the login page followed by the cookies of the
    POST response, stored over the jar held before, whatever the verdict:
    the session cookie of a redirect is kept. *)
Theorem login_stores_cookies (net : Server) (st : State)
  (username password : string) (page post : Response) (html tok : string) :
  let get := buildRequest (this st) loginPageOptions None in
  let st1 := received st get page in
  let req := buildRequest (this st1) (credentialOptions (this st1))
               (Some (credentialForm username password tok)) in
  net (sent (world st)) get = Respond page ->
  status page = 200 ->
  data page = Text html ->
  first_token patterns html = Some tok ->
  net (sent (world st1)) req = Respond post ->
  cookies (this (snd (login net username password st)))
  = storeCookies (cookies (this st)) (set_cookie page ++ set_cookie post).
Proof.
  intros get st1 req Hget Hs Hd Ht Hpost.
  rewrite (login_reaches_verdict net st username password page post html tok
             Hget Hs Hd Ht Hpost).
  rewrite loginVerdict_state. unfold storeCookies.
  now rewrite fold_left_app.
Qed.

Lemma login_stores_cookies_witness :
  cookies (this (snd (login welcomingPortal "owner@example.com" "hunter2"
                        acmeState)))
  = ["TrackOwner=s3ss10n"].
Proof.
  rewrite (login_stores_cookies welcomingPortal acmeState
             "owner@example.com" "hunter2"
             (plainResponse 200 (Text sampleLoginPage))
             {| status := 302; location := Some "/owner/dashboard/";
                set_cookie := ["TrackOwner=s3ss10n; path=/; HttpOnly"];
                data := Text EmptyString |}
             sampleLoginPage "abc123"
             eq_refl eq_refl eq_refl eq_refl eq_refl).
  reflexivity.
Defined.

(** ** The token step, continued *)


(** ** The loop of [fetchAllReservations], continued *)

Section LoopAccounting.

Variable net : Server.

(** One turn of the loop, reply by reply. *)
Lemma fetchLoop_unfold (fuel : nat) (s e : string) (acc : list Reservation)
  (cur tot : Z) (st : State) :
  let req := pageRequest st s e cur in
  fetchLoop net (S fuel) s e acc cur tot st
  = match net (sent (world st)) req with
    | Reject m =>
        (Throw (Error m),
         {| this := this st; world := log_request (world st) req |})
    | Respond res =>
        let st1 := received st req res in
        if negb (status res =? 200) then
          (Throw (Error ("Failed to fetch reservations. Status: "
                         ++ Z_to_string (status res))), st1)
        else
          match data res with
          | Null => (Throw (null_read "_embedded"), st1)
          | _ =>
              let acc' := (acc ++ records res)%list in
              let tot' := nextTotalPages (field data_total (data res))
                            (field data_size (data res)) tot in
              if cur + 1 <=? tot'
              then fetchLoop net fuel s e acc' (cur + 1) tot' (paused st1)
              else (Ok acc', st1)
          end
    end.
Proof.
  intros req.
  destruct (net (sent (world st)) req) as [res|m] eqn:Enet.
  - destruct (status res =? 200) eqn:Es.
    + apply Z.eqb_eq in Es. cbn [negb].
      destruct (data res) as [txt|o|] eqn:Ed.
      * rewrite <- Ed.
        apply (fetchLoop_step net fuel s e acc cur tot st res Enet Es).
        congruence.
      * rewrite <- Ed.
        apply (fetchLoop_step net fuel s e acc cur tot st res Enet Es).
        congruence.
      * cbn [fetchLoop]. unfold fetchReservations.
        unfold bind at 1. unfold bind at 1. unfold get_this at 1.
        erewrite bind_ok; [|apply makeRequest_respond; exact Enet].
        rewrite Es, Ed. reflexivity.
    + cbn [negb fetchLoop]. unfold fetchReservations.
      unfold bind at 1. unfold bind at 1. unfold get_this at 1.
      erewrite bind_ok; [|apply makeRequest_respond; exact Enet].
      rewrite Es. reflexivity.
  - cbn [fetchLoop]. unfold fetchReservations.
    unfold bind at 1. unfold bind at 1. unfold get_this at 1.
    unfold bind at 1. unfold makeRequest at 1. cbn [this world].
    fold (pageRequest st s e cur). fold req. rewrite Enet. reflexivity.
Qed.

Lemma page_param (st : State) (s e : string) (n : Z) :
  query_param "page" (pageRequest st s e n) = Some (Z_to_string n).
Proof. reflexivity. Qed.

(** The invariant of the loop, on the record of requests. *)
Lemma fetchLoop_ledger (fuel : nat) (s e : string) :
  forall (acc : list Reservation) (cur tot : Z) (st : State),
    Ledger fuel acc cur st (fetchLoop net fuel s e acc cur tot st).
Proof.
  induction fuel as [|fuel IH]; intros acc cur tot st.
  - exists []. cbn. rewrite app_nil_r. repeat split; lia.
  - rewrite fetchLoop_unfold.
    set (req := pageRequest st s e cur).
    assert (Hpage : map (query_param "page") [req]
                    = map (fun n => Some (Z_to_string n)) (pagesFrom cur 1)).
    { unfold pagesFrom. cbn [seq map]. unfold req. rewrite page_param.
      now rewrite Z.add_0_r. }
    destruct (net (sent (world st)) req) as [res|m].
    2:{ exists [req]. cbn [fst snd world sent log_request pauses List.length].
        repeat split; auto; lia. }
    cbv zeta.
    assert (Hstop : forall (o : outcome (list Reservation)),
               match o with Unfinished => False | _ => True end ->
               (forall rs, o = Ok rs -> exists more, rs = (acc ++ more)%list) ->
               Ledger (S fuel) acc cur st (o, received st req res)).
    { intros o Ho Hacc. exists [req].
      cbn [fst snd received world sent log_request pauses List.length].
      split; [reflexivity|]. split; [lia|]. split; [exact Hpage|].
      destruct o as [rs|x|]; [|split; lia|destruct Ho].
      split; [lia|]. split; [lia|]. now apply Hacc. }
    destruct (negb (status res =? 200));
      [apply Hstop; [exact Logic.I|discriminate]|].
    assert (Hgo :
      Ledger (S fuel) acc cur st
        (if cur + 1 <=? nextTotalPages (field data_total (data res))
                          (field data_size (data res)) tot
         then fetchLoop net fuel s e (acc ++ records res) (cur + 1)
                (nextTotalPages (field data_total (data res))
                   (field data_size (data res)) tot)
                (paused (received st req res))
         else (Ok (acc ++ records res)%list, received st req res))).
    { destruct (cur + 1 <=? nextTotalPages (field data_total (data res))
                              (field data_size (data res)) tot).
      - destruct (IH (acc ++ records res)%list (cur + 1)
                    (nextTotalPages (field data_total (data res))
                       (field data_size (data res)) tot)
                    (paused (received st req res)))
          as (reqs & Hsent & Hlen & Hpages & Hout).
        exists (req :: reqs). rewrite Hsent.
        cbn [paused received world sent log_request pauses List.length] in *.
        split; [now rewrite <- app_assoc|]. split; [lia|]. split.
        + unfold pagesFrom in *. cbn [seq map].
          rewrite <- seq_shift, map_map, map_map.
          cbn [map]. unfold req at 1. rewrite page_param, Z.add_0_r.
          f_equal. rewrite Hpages, map_map. apply map_ext. intros i.
          do 2 f_equal. lia.
        + destruct (fst (fetchLoop net fuel s e (acc ++ records res)
                           (cur + 1) _ _)) as [rs|x|].
          * destruct Hout as (H1 & H2 & more & ->).
            split; [lia|]. split; [lia|].
            exists (records res ++ more)%list. now rewrite app_assoc.
          * destruct Hout as (H1 & H2). split; lia.
          * destruct Hout as (H1 & H2). split; lia.
      - apply (Hstop (Ok (acc ++ records res)%list)); [exact Logic.I|].
        intros rs [= <-]. now exists (records res). }
    destruct (data res) as [txt|o|];
      [exact Hgo|exact Hgo|apply Hstop; [exact Logic.I|discriminate]].
Qed.

End LoopAccounting.

(** X12: the loop asks for consecutive pages, starting from its current
    page, one request per turn and never more requests than turns allowed;
    for [fetchAllReservations] these are the pages 1, 2, 3, ... *)
Theorem pages_are_consecutive (net : Server) (fuel : nat) (s e : string)
  (st : State) :
  let reqs := since st (snd (fetchAllReservations net fuel s e st)) in
  (List.length reqs <= fuel)%nat
  /\ map (query_param "page") reqs
     = map (fun n => Some (Z_to_string n)) (pagesFrom 1 (List.length reqs))
  /\ Forall (fun q => path q = RESERVATIONS_ENDPOINT /\ method q = "GET") reqs.
Proof.
  intros reqs. unfold reqs, fetchAllReservations.
  destruct (fetchLoop_ledger net fuel s e [] 1 1 st)
    as (rs & Hsent & Hlen & Hpages & _).
  rewrite (since_app _ _ _ Hsent).
  split; [assumption|]. split; [assumption|].
  destruct (issues_fetchLoop net anyClient
              (fun q => path q = RESERVATIONS_ENDPOINT /\ method q = "GET")
              (fun c jar H => H) fuel s e
              (fun c c' options H => conj eq_refl eq_refl)
              [] 1 1 st Logic.I) as (_ & new & Hnew & Hall).
  rewrite Hsent in Hnew. apply app_inv_head in Hnew. now subst.
Qed.

(** X13: the loop takes one pacing delay between two consecutive requests
    and none after the last: when it ends, by returning or by throwing, it
    has sent at least one request and paused once less than it sent. The
    records it returns begin with the records it started from: pages are
    only ever appended. *)
Theorem pacing_and_append_only (net : Server) (fuel : nat) (s e : string)
  (acc : list Reservation) (cur tot : Z) (st : State) :
  let r := fetchLoop net fuel s e acc cur tot st in
  let n := List.length (since st (snd r)) in
  match fst r with
  | Ok rs =>
      (1 <= n)%nat
      /\ pauses (world (snd r)) = (pauses (world st) + n - 1)%nat
      /\ exists more, rs = (acc ++ more)%list
  | Throw _ =>
      (1 <= n)%nat
      /\ pauses (world (snd r)) = (pauses (world st) + n - 1)%nat
  | Unfinished => n = fuel
  end.
Proof.
  intros r n. unfold n, r.
  destruct (fetchLoop_ledger net fuel s e acc cur tot st)
    as (reqs & Hsent & _ & _ & Hout).
  rewrite (since_app _ _ _ Hsent).
  destruct (fst (fetchLoop net fuel s e acc cur tot st)) as [rs|x|].
  - destruct Hout as (H1 & H2 & Hmore). repeat split; [lia|lia|assumption].
  - destruct Hout as (H1 & H2). split; lia.
  - now destruct Hout.
Qed.

Lemma pagesFrom_cons (cur : Z) (n : nat) :
  pagesFrom cur (S n) = cur :: pagesFrom (cur + 1) n.
Proof.
  unfold pagesFrom. cbn [seq map]. rewrite Z.add_0_r. f_equal.
  rewrite <- seq_shift, map_map. apply map_ext. intros i. lia.
Qed.

Section Catalogue.

Variable net : Server.
Variables T Sz : Z.
Variable content : option string -> list Reservation.

Hypothesis T_truthy : T <> 0.
Hypothesis SZ_truthy : Sz <> 0.
Hypothesis serves :
  forall hist req,
  exists res,
    net hist req = Respond res
    /\ status res = 200
    /\ field data_total (data res) = Some T
    /\ field data_size (data res) = Some Sz
    /\ records res = content (query_param "page" req).

Lemma nextTotalPages_reported (tot : Z) :
  nextTotalPages (Some T) (Some Sz) tot = ceil_div T Sz.
Proof.
  unfold nextTotalPages.
  change (truthy (Some T)) with (negb (T =? 0)).
  change (truthy (Some Sz)) with (negb (Sz =? 0)).
  destruct (Z.eqb_spec T 0); [contradiction|].
  destruct (Z.eqb_spec Sz 0); [contradiction|]. reflexivity.
Qed.

(** From page [cur], the loop fetches up to the last page reported. *)
Lemma fetchLoop_catalogue (m : nat) :
  forall (fuel : nat) (s e : string) (acc : list Reservation) (cur tot : Z)
         (st : State),
    Z.of_nat m = Z.max 0 (ceil_div T Sz - cur) ->
    (m < fuel)%nat ->
    exists st',
      fetchLoop net fuel s e acc cur tot st
      = (Ok (acc ++ flat_map (fun n => content (Some (Z_to_string n)))
                      (pagesFrom cur (S m)))%list, st')
      /\ List.length (since st st') = S m.
Proof.
  induction m as [|m IH]; intros fuel s e acc cur tot st Hm Hfuel;
    (destruct fuel as [|fuel]; [lia|]);
    destruct (serves (sent (world st)) (pageRequest st s e cur))
      as (res & Hnet & Hs & Ht & Hz & Hrec);
    assert (Hbody : data res <> Null)
      by (intros Hn; rewrite Hn in Ht; discriminate);
    rewrite (fetchLoop_step net fuel s e acc cur tot st res Hnet Hs Hbody);
    rewrite Ht, Hz, nextTotalPages_reported, Hrec, page_param.
  - replace (cur + 1 <=? ceil_div T Sz) with false
      by (symmetry; apply Z.leb_gt; lia).
    eexists. split.
    + rewrite pagesFrom_cons. cbn [pagesFrom seq map flat_map].
      now rewrite app_nil_r.
    + now rewrite since_received.
  - replace (cur + 1 <=? ceil_div T Sz) with true
      by (symmetry; apply Z.leb_le; lia).
    destruct (IH fuel s e (acc ++ content (Some (Z_to_string cur)))%list
                (cur + 1) (ceil_div T Sz)
                (paused (received st (pageRequest st s e cur) res)))
      as (st' & Hrun & Hlen); [lia|lia|].
    exists st'. rewrite Hrun. split.
    + f_equal. rewrite (pagesFrom_cons cur (Datatypes.S m)).
      cbn [flat_map]. now rewrite app_assoc.
    + unfold since in *.
      cbn [paused received world sent log_request] in Hlen.
      rewrite length_skipn in *. rewrite length_app in Hlen.
      cbn [List.length] in Hlen.
      assert (Hge : (List.length (sent (world st)) + 1
                     <= List.length (sent (world st')))%nat).
      { destruct (fetchLoop_ledger net fuel s e
                    (acc ++ content (Some (Z_to_string cur)))%list
                    (cur + 1) (ceil_div T Sz)
                    (paused (received st (pageRequest st s e cur) res)))
          as (reqs & Hsent & _).
        rewrite Hrun in Hsent. cbn [snd] in Hsent. rewrite Hsent.
        cbn [paused received world sent log_request].
        rewrite !length_app. cbn [List.length]. lia. }
      lia.
Qed.

End Catalogue.

(** X14: against a listing endpoint that answers every request with
    status 200, the same [total] and [size], both non-zero safe integers,
    and the records of the page asked for, [fetchAllReservations] fetches
    the pages 1 to [ceil(total / size)] (page 1 alone when that is less
    than 1), once each, and returns their records in page order; as many
    turns as pages are enough. *)
Theorem fetches_every_reported_page (net : Server) (T Sz : Z)
  (content : option string -> list Reservation) (fuel : nat) (s e : string)
  (st : State) :
  T <> 0 ->
  Sz <> 0 ->
  safe_integer T ->
  safe_integer Sz ->
  (forall hist req,
      exists res,
        net hist req = Respond res
        /\ status res = 200
        /\ field data_total (data res) = Some T
        /\ field data_size (data res) = Some Sz
        /\ records res = content (query_param "page" req)) ->
  let pages := Z.to_nat (Z.max 1 (ceil_div T Sz)) in
  (pages <= fuel)%nat ->
  fst (fetchAllReservations net fuel s e st)
  = Ok (flat_map (fun n => content (Some (Z_to_string n)))
          (pagesFrom 1 pages))
  /\ List.length (since st (snd (fetchAllReservations net fuel s e st)))
     = pages.
Proof.
  intros HT HS _ _ Hserves pages Hfuel. unfold fetchAllReservations.
  destruct (fetchLoop_catalogue net T Sz content HT HS Hserves
              (Z.to_nat (Z.max 0 (ceil_div T Sz - 1)))
              fuel s e [] 1 1 st) as (st' & Hrun & Hlen).
  - lia.
  - unfold pages in Hfuel. lia.
  - rewrite Hrun. cbn [fst snd].
    replace pages with (Datatypes.S (Z.to_nat (Z.max 0 (ceil_div T Sz - 1))))
      by (unfold pages; lia).
    split; [reflexivity|exact Hlen].
Qed.

Lemma fetches_every_reported_page_witness :
  fst (fetchAllReservations catalogPortal 3 "2026-01-01" "2026-12-31"
         acmeState)
  = Ok [JStr "1"; JStr "2"; JStr "3"].
Proof.
  destruct (fetches_every_reported_page catalogPortal 250 100
              (fun p => [JStr (default EmptyString p)]) 3
              "2026-01-01" "2026-12-31" acmeState) as [Hrun _].
  - discriminate.
  - discriminate.
  - split; reflexivity.
  - split; reflexivity.
  - intros hist req. eexists. repeat split.
  - vm_compute. lia.
  - rewrite Hrun. reflexivity.
Defined.

(** X15: the loop has no page limit of its own. Against an endpoint that,
    for as long as the run lasts, reports a total and a size (non-zero safe
    integers) whose page count exceeds the number of requests it has seen
    by two or more, the loop does not return: it uses every turn it is
    allowed, one request per turn. *)
Theorem loop_follows_a_growing_total (net : Server) (fuel : nat)
  (s e : string) (st : State) :
  (forall hist req,
      (List.length hist < List.length (sent (world st)) + fuel)%nat ->
      exists res total size,
        net hist req = Respond res
        /\ status res = 200
        /\ field data_total (data res) = Some total
        /\ field data_size (data res) = Some size
        /\ total <> 0 /\ size <> 0
        /\ safe_integer total /\ safe_integer size
        /\ Z.of_nat (List.length hist) + 2 <= ceil_div total size) ->
  fst (fetchAllReservations net fuel s e st) = Unfinished
  /\ List.length (since st (snd (fetchAllReservations net fuel s e st)))
     = fuel.
Proof.
  intros Hnet. unfold fetchAllReservations.
  assert (H : forall n acc cur tot st0,
             cur <= Z.of_nat (List.length (sent (world st0))) + 1 ->
             (List.length (sent (world st0)) + n
              <= List.length (sent (world st)) + fuel)%nat ->
             fst (fetchLoop net n s e acc cur tot st0) = Unfinished).
  { induction n as [|n IH]; intros acc cur tot st0 Hcur Hroom;
      [reflexivity|].
    destruct (Hnet (sent (world st0)) (pageRequest st0 s e cur))
      as (res & total & size & Hreply & Hs & Ht & Hz & Ht0 & Hz0 & _ & _
          & Hahead); [lia|].
    rewrite (fetchLoop_step net n s e acc cur tot st0 res Hreply Hs)
      by (intros Hn; rewrite Hn in Ht; discriminate).
    rewrite Ht, Hz, (nextTotalPages_reported total size Ht0 Hz0).
    replace (cur + 1 <=? ceil_div total size) with true
      by (symmetry; apply Z.leb_le; lia).
    apply IH; cbn [paused received world sent log_request];
      rewrite length_app; cbn [List.length]; lia. }
  assert (Hrun : fst (fetchLoop net fuel s e [] 1 1 st) = Unfinished)
    by (apply H; lia).
  split; [exact Hrun|].
  destruct (fetchLoop_ledger net fuel s e [] 1 1 st)
    as (reqs & Hsent & _ & _ & Hout).
  rewrite Hrun in Hout. rewrite (since_app _ _ _ Hsent). now destruct Hout.
Qed.

Lemma loop_follows_a_growing_total_witness :
  fst (fetchAllReservations runawayPortal 25 "2026-01-01" "2026-12-31"
         acmeState) = Unfinished.
Proof.
  apply (loop_follows_a_growing_total runawayPortal 25).
  intros hist req Hlen.
  cbn [acmeState freshWorld world sent List.length] in Hlen.
  eexists. exists (100 * (Z.of_nat (List.length hist) + 2)), 100.
  unfold safe_integer. change (2 ^ 53) with 9007199254740992.
  repeat split; try reflexivity; try lia.
  unfold ceil_div.
  replace (- (100 * (Z.of_nat (List.length hist) + 2)))
    with ((- (Z.of_nat (List.length hist) + 2)) * 100) by lia.
  rewrite Z.div_mul by lia. lia.
Defined.

(** A listing response with a status other than 200 ends the loop with
    the error that names the status; the cookies of the failed response are
    still stored. *)
Lemma failed_page_aborts_fetch (net : Server) (fuel : nat) (s e : string)
  (acc : list Reservation) (cur tot : Z) (st : State) (res : Response) :
  let req := pageRequest st s e cur in
  net (sent (world st)) req = Respond res ->
  status res <> 200 ->
  fetchLoop net (S fuel) s e acc cur tot st
  = (Throw (Error ("Failed to fetch reservations. Status: "
                   ++ Z_to_string (status res))),
     received st req res).
Proof.
  intros req Hnet Hs. rewrite fetchLoop_unfold. fold req. rewrite Hnet.
  apply Z.eqb_neq in Hs. now rewrite Hs.
Qed.

(** X16: the fetch is all or nothing. When the loop returns records, every
    request it sent was answered with status 200 and a body other than
    [null], and the records returned are the records it started from
    followed by the records of every response, in the order of the
    requests: no page is dropped, repeated or reordered, and a run in which
    any page failed returns no records at all. *)
Theorem all_pages_or_nothing (net : Server) (fuel : nat) (s e : string) :
  forall (acc : list Reservation) (cur tot : Z) (st : State)
         (rs : list Reservation),
    fst (fetchLoop net fuel s e acc cur tot st) = Ok rs ->
    exists ress,
      answered net (sent (world st))
        (since st (snd (fetchLoop net fuel s e acc cur tot st))) ress
      /\ Forall (fun res => status res = 200 /\ data res <> Null) ress
      /\ rs = (acc ++ flat_map records ress)%list.
Proof.
  induction fuel as [|fuel IH]; intros acc cur tot st rs H; [discriminate|].
  rewrite fetchLoop_unfold in H |- *.
  set (req := pageRequest st s e cur) in *.
  destruct (net (sent (world st)) req) as [res|m] eqn:Enet; [|discriminate].
  cbv zeta in H |- *.
  destruct (status res =? 200) eqn:Es; cbn [negb] in H |- *; [|discriminate].
  apply Z.eqb_eq in Es.
  assert (Hgo :
    data res <> Null ->
    forall r,
      r = (if cur + 1 <=? nextTotalPages (field data_total (data res))
                            (field data_size (data res)) tot
           then fetchLoop net fuel s e (acc ++ records res) (cur + 1)
                  (nextTotalPages (field data_total (data res))
                     (field data_size (data res)) tot)
                  (paused (received st req res))
           else (Ok (acc ++ records res)%list, received st req res)) ->
      fst r = Ok rs ->
      exists ress,
        answered net (sent (world st)) (since st (snd r)) ress
        /\ Forall (fun res => status res = 200 /\ data res <> Null) ress
        /\ rs = (acc ++ flat_map records ress)%list).
  { intros Hd r -> Hr.
    destruct (cur + 1 <=? nextTotalPages (field data_total (data res))
                            (field data_size (data res)) tot).
    - destruct (IH _ _ _ _ _ Hr) as (ress & Hans & Hall & ->).
      destruct (fetchLoop_ledger net fuel s e (acc ++ records res)%list
                  (cur + 1)
                  (nextTotalPages (field data_total (data res))
                     (field data_size (data res)) tot)
                  (paused (received st req res)))
        as (reqs & Hsent & _).
      rewrite (since_app _ _ _ Hsent) in Hans.
      cbn [paused received world sent log_request] in Hsent, Hans.
      rewrite <- app_assoc in Hsent. cbn [app] in Hsent.
      rewrite (since_app _ _ _ Hsent).
      exists (res :: ress). cbn [answered flat_map]. repeat split; auto.
      now rewrite app_assoc.
    - cbn [fst snd] in Hr |- *. injection Hr as <-.
      rewrite since_received. exists [res].
      cbn [answered flat_map]. rewrite app_nil_r. repeat split; auto. }
  destruct (data res) as [txt|o|] eqn:Ed; [| |discriminate].
  - apply (Hgo ltac:(discriminate) _ eq_refl H).
  - apply (Hgo ltac:(discriminate) _ eq_refl H).
Qed.

Lemma all_pages_or_nothing_witness :
  exists ress,
    answered threePagePortal (sent (world acmeState))
      (since acmeState
         (snd (fetchLoop threePagePortal 3 "2026-01-01" "2026-12-31"
                 [] 1 1 acmeState))) ress
    /\ Forall (fun res => status res = 200 /\ data res <> Null) ress
    /\ [JObj [("id", JNum 0)]; JObj [("id", JNum 1)]; JObj [("id", JNum 2)]]
       = ([] ++ flat_map records ress)%list.
Proof.
  apply (all_pages_or_nothing threePagePortal 3 "2026-01-01" "2026-12-31"
           [] 1 1 acmeState).
  reflexivity.
Defined.

(** ** Command-line arguments *)

Section Arguments.

Lemma indexOf_lower (args : list string) (flag : string) :
  -1 <= indexOf args flag.
Proof.
  induction args as [|a args IH]; simpl; [lia|].
  destruct (String.eqb a flag); [lia|].
  destruct (indexOf args flag <? 0) eqn:E; [lia|].
  apply Z.ltb_ge in E. lia.
Qed.

Lemma indexOf_absent (args : list string) (flag : string) :
  ~ In flag args -> indexOf args flag = -1.
Proof.
  induction args as [|a args IH]; simpl; intros H; [reflexivity|].
  destruct (String.eqb a flag) eqn:E.
  - apply String.eqb_eq in E. exfalso. apply H. now left.
  - rewrite IH by (intros Hin; apply H; now right). reflexivity.
Qed.

Lemma indexOf_first (before after : list string) (flag : string) :
  ~ In flag before ->
  indexOf (before ++ flag :: after) flag = Z.of_nat (List.length before).
Proof.
  induction before as [|a before IH]; intros H.
  - simpl. now rewrite String.eqb_refl.
  - change ((a :: before) ++ flag :: after)%list
      with (a :: (before ++ flag :: after))%list.
    cbn [indexOf].
    destruct (String.eqb a flag) eqn:E.
    + apply String.eqb_eq in E. exfalso. apply H. now left.
    + rewrite IH by (intros Hin; apply H; now right).
      destruct (Z.of_nat (List.length before) <? 0) eqn:El.
      * apply Z.ltb_lt in El. lia.
      * cbn [List.length]. lia.
Qed.

End Arguments.

Lemma arg_after_absent (args : list string) (flag : string) :
  ~ In flag args -> arg_after args flag = hd_error args.
Proof.
  intros H. unfold arg_after. rewrite indexOf_absent by assumption.
  now destruct args.
Qed.

Lemma arg_after_present (before after : list string) (flag : string) :
  ~ In flag before ->
  arg_after (before ++ flag :: after) flag = hd_error after.
Proof.
  intros H. unfold arg_after. rewrite indexOf_first by assumption.
  replace (Z.to_nat (Z.of_nat (List.length before) + 1))
    with (List.length before + 1)%nat by lia.
  rewrite nth_error_app2 by lia.
  replace (List.length before + 1 - List.length before)%nat with 1%nat
    by lia.
  now destruct after.
Qed.

Lemma setting_absent (proc : Process) (flag variable a : string)
  (rest : list string) :
  argv proc = a :: rest ->
  truthy a = true ->
  ~ In flag (argv proc) ->
  setting proc flag variable = Some a.
Proof.
  intros Hargv Ha Habsent. unfold setting, js_or.
  rewrite (arg_after_absent _ _ Habsent), Hargv.
  cbn [hd_error truthy truthy_option]. now rewrite Ha.
Qed.

(** X17: [args[args.indexOf(flag) + 1]] is the argument that follows the
    first occurrence of the flag, [undefined] when the flag comes last;
    and when the flag does not occur at all, [indexOf] is [-1] and the
    expression is the first argument of the command line. *)
Theorem arg_after_spec (args : list string) (flag : string) :
  (~ In flag args -> arg_after args flag = hd_error args)
  /\ (forall before after,
         args = (before ++ flag :: after)%list ->
         ~ In flag before ->
         arg_after args flag = hd_error after).
Proof.
  split; [apply arg_after_absent|].
  intros before after -> H. now apply arg_after_present.
Qed.

Lemma arg_after_spec_witness :
  arg_after ["--start-date"; "2026-01-01"] "--domain" = Some "--start-date"
  /\ arg_after ["--start-date"; "2026-01-01"; "--domain"; "acme"] "--domain"
     = Some "acme".
Proof.
  destruct (arg_after_spec ["--start-date"; "2026-01-01"] "--domain")
    as [Habsent _].
  destruct (arg_after_spec ["--start-date"; "2026-01-01"; "--domain"; "acme"]
              "--domain") as [_ Hpresent].
  split.
  - rewrite Habsent; [reflexivity|].
    intros [H|[H|[]]]; discriminate H.
  - rewrite (Hpresent ["--start-date"; "2026-01-01"] ["acme"] eq_refl);
      [reflexivity|].
    intros [H|[H|[]]]; discriminate H.
Defined.

(** X18: as soon as the command line has a non-empty first argument, a
    setting whose flag is not given takes that first argument as its
    value: the environment variable and the default are not consulted.
    Only with an empty command line does the environment decide. *)
Theorem absent_flag_takes_first_argument (proc : Process)
  (flag variable : string) :
  (forall a rest,
      argv proc = a :: rest ->
      truthy a = true ->
      ~ In flag (argv proc) ->
      setting proc flag variable = Some a)
  /\ (argv proc = [] -> setting proc flag variable = env proc variable).
Proof.
  split; [intros a rest; apply setting_absent|].
  intros Hargv. unfold setting, js_or. rewrite Hargv. reflexivity.
Qed.

Lemma absent_flag_takes_first_argument_witness :
  outputFileOf cliProcess = "--username"
  /\ usernameOf envProcess = Some "owner@example.com".
Proof.
  split.
  - unfold outputFileOf.
    rewrite (proj1 (absent_flag_takes_first_argument cliProcess "--output"
                      "TRACKHS_OUTPUT_FILE")
               "--username"
               ["owner@example.com"; "--password"; "hunter2";
                "--domain"; "acme"] eq_refl eq_refl); [reflexivity|].
    intros H. repeat (destruct H as [H|H]; [discriminate H|]). exact H.
  - unfold usernameOf.
    now rewrite (proj2 (absent_flag_takes_first_argument envProcess
                          "--username" "TRACKHS_USERNAME") eq_refl).
Defined.

(** ** What touches the disk *)

Section DiskFrame.

Variable net : Server.

Lemma keeps_ret {A} (a : A) : keeps_disk (ret a).
Proof. intros st. reflexivity. Qed.

Lemma keeps_throw {A} (e : exn) : keeps_disk (@throw A e).
Proof. intros st. reflexivity. Qed.

Lemma keeps_bind {A B} (m : M A) (k : A -> M B) :
  keeps_disk m -> (forall a, keeps_disk (k a)) -> keeps_disk (bind m k).
Proof.
  intros Hm Hk st. unfold bind. specialize (Hm st).
  destruct (m st) as [[a|e|] st1]; cbn [snd] in *; [|assumption|assumption].
  now rewrite Hk.
Qed.

Lemma keeps_makeRequest (o : Options) (b : option string) :
  keeps_disk (makeRequest net o b).
Proof.
  intros st. unfold makeRequest.
  destruct (net (sent (world st)) (buildRequest (this st) o b));
    reflexivity.
Qed.

Lemma keeps_prop {A} (key : string) (name : Payload -> option A)
  (body : Body) :
  keeps_disk (prop key name body).
Proof. destruct body; intros st; reflexivity. Qed.

Lemma keeps_getApiToken : keeps_disk (getApiToken net).
Proof.
  unfold getApiToken.
  apply keeps_bind; [intros st; reflexivity|]. intros c.
  apply keeps_bind; [apply keeps_makeRequest|]. intros res.
  destruct (negb (status res =? 200)); [apply keeps_throw|].
  apply keeps_bind; [apply keeps_prop|]. intros success.
  destruct (negb (truthy success)); [apply keeps_throw|].
  apply keeps_bind; [apply keeps_prop|]. intros [t|]; [|apply keeps_throw].
  destruct (truthy t); [|apply keeps_throw].
  apply keeps_bind; [intros st; reflexivity|]. intros c'.
  apply keeps_bind; [intros st; reflexivity|]. intros _. apply keeps_ret.
Qed.

Lemma keeps_login (username password : string) :
  keeps_disk (login net username password).
Proof.
  unfold login.
  apply keeps_bind; [apply keeps_makeRequest|]. intros page.
  destruct (negb (status page =? 200)); [apply keeps_throw|].
  apply keeps_bind.
  - unfold extractSecurityToken.
    destruct (data page) as [html|o|]; try apply keeps_throw.
    destruct (first_token patterns html); [apply keeps_ret|apply keeps_throw].
  - intros tok. apply keeps_bind; [intros st; reflexivity|]. intros c.
    apply keeps_bind; [apply keeps_makeRequest|]. intros post st.
    now rewrite loginVerdict_state.
Qed.

Lemma keeps_fetchLoop (fuel : nat) (s e : string) :
  forall acc cur tot, keeps_disk (fetchLoop net fuel s e acc cur tot).
Proof.
  induction fuel as [|fuel IH]; intros acc cur tot; [intros st; reflexivity|].
  cbn [fetchLoop].
  apply keeps_bind.
  - unfold fetchReservations.
    apply keeps_bind; [intros st; reflexivity|]. intros c.
    apply keeps_bind; [apply keeps_makeRequest|]. intros res.
    destruct (negb (status res =? 200)); [apply keeps_throw|apply keeps_ret].
  - intros body. apply keeps_bind; [apply keeps_prop|]. intros rs.
    apply keeps_bind; [apply keeps_prop|]. intros total.
    apply keeps_bind; [apply keeps_prop|]. intros size.
    apply keeps_bind.
    + destruct (cur + 1 <=? nextTotalPages total size tot);
        [intros st; reflexivity|apply keeps_ret].
    + intros _. destruct (cur + 1 <=? nextTotalPages total size tot);
        [apply IH|apply keeps_ret].
Qed.

(** What [saveReservations] leaves on the disk. *)
Lemma save_outcome (proc : Process) (rs : list Reservation)
  (filename : string) (st : State) :
  let r := saveReservations proc rs filename st in
  match fst r with
  | Ok _ =>
      files (disk (world (snd r)))
      = (savePathOf proc filename, rs)
        :: filter (fun f => negb (String.eqb (fst f)
                                    (savePathOf proc filename)))
             (files (disk (world st)))
  | _ => files (disk (world (snd r))) = files (disk (world st))
  end.
Proof.
  cbv zeta. rewrite saveReservations_run.
  destruct (fs_mkdir_recursive (outputDirOf proc) (disk (world st)))
    as [fs1|e|] eqn:Emk; try reflexivity.
  pose proof (mkdir_result proc _ _ Emk) as ->.
  unfold fs_writeFile. cbn [dirs files].
  destruct (mem _ _); [reflexivity|].
  destruct (negb (mem _ _)); reflexivity.
Qed.

(** The summary changes nothing; it throws exactly when a record is
    [null]. *)
Lemma printSummary_outcome (rs : list Reservation) (st : State) :
  snd (printSummary rs st) = st
  /\ match fst (printSummary rs st) with
     | Ok _ => ~ In JNull rs
     | Throw _ => In JNull rs
     | Unfinished => False
     end.
Proof.
  unfold printSummary.
  destruct (0 <? Z.of_nat (List.length rs)) eqn:E.
  - clear E. induction rs as [|r rs IH]; cbn [reduceSummary].
    + split; [reflexivity|]. intros [].
    + destruct r;
        try (destruct IH as [IH1 IH2]; split; [exact IH1|];
             destruct (fst (reduceSummary rs st));
             [intros [H|H]; [discriminate H|now apply IH2]
             |now right|assumption]).
      split; [reflexivity|]. now left.
  - destruct rs; [|discriminate E]. split; [reflexivity|]. intros [].
Qed.

(** The authenticated part of [main], stage by stage: the records it
    returns are in the file and none of them is [null]; when it fails,
    either no file has changed, or the file was written and the summary
    then met a [null] record. *)
Lemma pipeline_outcome (fuel : nat) (proc : Process) (s e out : string)
  (st : State) :
  let r := pipeline net fuel proc s e out st in
  match fst r with
  | Ok rs =>
      In (savePathOf proc out, rs) (files (disk (world (snd r))))
      /\ ~ In JNull rs
  | _ =>
      files (disk (world (snd r))) = files (disk (world st))
      \/ exists saved,
           In JNull saved
           /\ In (savePathOf proc out, saved) (files (disk (world (snd r))))
  end.
Proof.
  cbv zeta. unfold pipeline, fetchAllReservations, bind.
  pose proof (keeps_getApiToken st) as Htok.
  destruct (getApiToken net st) as [[t|x|] st1]; cbn [fst snd] in *;
    try (left; now rewrite Htok).
  pose proof (keeps_fetchLoop fuel s e [] 1 1 st1) as Hfetch.
  destruct (fetchLoop net fuel s e [] 1 1 st1) as [[rs|x|] st2];
    cbn [fst snd] in *; try (left; now rewrite Hfetch, Htok).
  pose proof (save_outcome proc rs out st2) as Hsave. cbv zeta in Hsave.
  destruct (saveReservations proc rs out st2) as [[u|x|] st3];
    cbn [fst snd ret] in *;
    try (left; now rewrite Hsave, Hfetch, Htok).
  destruct (printSummary_outcome rs st3) as [Hst Hout].
  destruct (printSummary rs st3) as [[v|x|] st4]; cbn [fst snd ret] in *;
    subst st4.
  - split; [|exact Hout]. rewrite Hsave. now left.
  - right. exists rs. split; [exact Hout|]. rewrite Hsave. now left.
  - destruct Hout.
Qed.

End DiskFrame.

(** ** The orchestrator, continued *)

Section Startup.

Variable net : Server.
Variable fuel : nat.
Variable proc : Process.
Variable w : World.

Lemma no_domain_no_client :
  truthy (domainOf proc) = false ->
  exists e, new_TrackHSClient (domainOf proc) = Throw e.
Proof.
  unfold new_TrackHSClient. destruct (domainOf proc) as [d|]; cbn.
  - intros H. rewrite H. eauto.
  - eauto.
Qed.

Lemma domain_gives_client (d : string) :
  domainOf proc = Some d ->
  truthy d = true ->
  new_TrackHSClient (domainOf proc)
  = Ok {| domain := d; baseUrl := d ++ ".trackhs.com"; token := None;
          cookies := [] |}.
Proof. intros -> H. unfold new_TrackHSClient. now rewrite H. Qed.

(** The branch of [main] taken with a session cookie. *)
Lemma cookie_branch (cookie d : string) :
  helpRequested proc = false ->
  domainOf proc = Some d ->
  truthy d = true ->
  sessionCookieOf proc = Some cookie ->
  truthy cookie = true ->
  main net fuel proc w
  = finish (pipeline net fuel proc (startDateOf proc) (endDateOf proc)
              (outputFileOf proc)
              {| this := {| domain := d; baseUrl := d ++ ".trackhs.com";
                            token := None; cookies := [cookie] |};
                 world := w |}).
Proof.
  intros Hhelp Hdom Hd Hcookie Htruthy. unfold main.
  rewrite Hhelp, (domain_gives_client d Hdom Hd), Hcookie.
  cbn [truthy truthy_option]. rewrite Htruthy. unfold or_else.
  now rewrite Htruthy.
Qed.

(** The branch of [main] taken with a username and a password. *)
Lemma login_branch (d username password : string) :
  helpRequested proc = false ->
  domainOf proc = Some d ->
  truthy d = true ->
  truthy (sessionCookieOf proc) = false ->
  usernameOf proc = Some username ->
  truthy username = true ->
  passwordOf proc = Some password ->
  truthy password = true ->
  main net fuel proc w
  = finish ((login net username password ;;;
             pipeline net fuel proc (startDateOf proc) (endDateOf proc)
               (outputFileOf proc))
              {| this := {| domain := d; baseUrl := d ++ ".trackhs.com";
                            token := None; cookies := [] |};
                 world := w |}).
Proof.
  intros Hhelp Hdom Hd Hcookie Hu Htu Hp Htp. unfold main.
  rewrite Hhelp, (domain_gives_client d Hdom Hd), Hcookie, Hu, Hp.
  cbn [truthy truthy_option]. rewrite Htu, Htp. unfold or_else.
  now rewrite Htu, Htp.
Qed.

Lemma cookie_run_never_logs_in (cookie : string) :
  sessionCookieOf proc = Some cookie ->
  truthy cookie = true ->
  Forall (fun q => path q <> "/owner/")
    (skipn (List.length (sent w))
       (sent (world (snd (main net fuel proc w))))).
Proof.
  intros Hcookie Htruthy. unfold main.
  destruct (helpRequested proc); [simpl; rewrite skipn_all; constructor|].
  destruct (new_TrackHSClient (domainOf proc)) as [client| |];
    try (simpl; rewrite skipn_all; constructor).
  rewrite Hcookie. cbn [truthy truthy_option]. rewrite Htruthy.
  rewrite finish_state.
  assert (Htok : forall c c',
             path (buildRequest c (tokenOptions c') None) <> "/owner/")
    by (intros c c'; discriminate).
  assert (Hlist : forall c c' options,
             path (buildRequest c (listingOptions c' options) None)
             <> "/owner/")
    by (intros c c' options; discriminate).
  match goal with
  | |- context [pipeline ?n ?f ?p ?s ?e ?o ?st] =>
      destruct (issues_pipeline n (fun q => path q <> "/owner/")
                  f p s e o Htok Hlist st Logic.I)
        as (_ & new & Hsent & Hall)
  end.
  rewrite Hsent. cbn [world sent]. rewrite skipn_app, skipn_all.
  now rewrite Nat.sub_diag.
Qed.

End Startup.

(** X19: when the command line has a non-empty first argument and no
    [--session-cookie] flag, that first argument is taken as the session
    cookie: [main] never calls [login], sends no request to [/owner/], and
    runs the authenticated part with a jar that holds the first argument,
    also when [--username] and [--password] are given. *)
Theorem cli_arguments_skip_login (net : Server) (fuel : nat) (proc : Process)
  (w : World) (a : string) (rest : list string) :
  argv proc = a :: rest ->
  truthy a = true ->
  ~ In "--session-cookie" (argv proc) ->
  sessionCookieOf proc = Some a
  /\ Forall (fun q => path q <> "/owner/")
       (skipn (List.length (sent w))
          (sent (world (snd (main net fuel proc w)))))
  /\ (forall d,
         helpRequested proc = false ->
         domainOf proc = Some d ->
         truthy d = true ->
         main net fuel proc w
         = finish (pipeline net fuel proc (startDateOf proc) (endDateOf proc)
                     (outputFileOf proc)
                     {| this := {| domain := d;
                                   baseUrl := d ++ ".trackhs.com";
                                   token := None; cookies := [a] |};
                        world := w |})).
Proof.
  intros Hargv Ha Habsent.
  assert (Hcookie : sessionCookieOf proc = Some a)
    by (unfold sessionCookieOf; eapply setting_absent; eauto).
  split; [exact Hcookie|]. split.
  - now apply cookie_run_never_logs_in with (cookie := a).
  - intros d Hhelp Hdom Hd. now apply cookie_branch.
Qed.

Lemma cli_arguments_skip_login_witness :
  map (fun q => get_header "cookie" (headers q))
    (sent (world (snd (main welcomingPortal 3 cliProcess freshWorld))))
  = [Some "--username"].
Proof.
  destruct (cli_arguments_skip_login welcomingPortal 3 cliProcess freshWorld
              "--username"
              ["owner@example.com"; "--password"; "hunter2";
               "--domain"; "acme"] eq_refl eq_refl) as (_ & _ & Hrun).
  - intros H. repeat (destruct H as [H|H]; [discriminate H|]). exact H.
  - rewrite (Hrun "acme" eq_refl eq_refl eq_refl). reflexivity.
Defined.



(** X20: [main] sends nothing and writes nothing when help is asked for
    (exit status 0), when no domain is set, and when neither a session
    cookie nor both a username and a password are set (exit status 1). *)
Theorem run_needs_domain_and_credentials (net : Server) (fuel : nat)
  (proc : Process) (w : World) :
  (helpRequested proc = true ->
   main net fuel proc w = (Ok (0, []), {| this := no_client; world := w |}))
  /\ (helpRequested proc = false ->
      truthy (domainOf proc) = false
      \/ (truthy (sessionCookieOf proc) = false
          /\ truthy (usernameOf proc) && truthy (passwordOf proc) = false) ->
      main net fuel proc w
      = (Ok (1, []), {| this := no_client; world := w |})).
Proof.
  unfold main. split.
  - intros ->. reflexivity.
  - intros -> [Hdom|[Hcookie Hcred]].
    + destruct (no_domain_no_client proc Hdom) as [e ->]. reflexivity.
    + destruct (new_TrackHSClient (domainOf proc)); try reflexivity.
      now rewrite Hcookie, Hcred.
Qed.

Lemma run_needs_domain_and_credentials_witness :
  main welcomingPortal 3 appProcess freshWorld
  = (Ok (1, []), {| this := no_client; world := freshWorld |}).
Proof.
  apply (proj2 (run_needs_domain_and_credentials welcomingPortal 3
                  appProcess freshWorld)).
  - reflexivity.
  - left. reflexivity.
Defined.



(** X22: in the run with a username and a password, [login] comes first,
    and a login that throws ends the run with exit status 1 before any
    token or listing request: what was sent is what [login] sent. *)
Theorem failed_login_stops_run (net : Server) (fuel : nat) (proc : Process)
  (w : World) (d username password : string) (e : exn) :
  helpRequested proc = false ->
  domainOf proc = Some d ->
  truthy d = true ->
  truthy (sessionCookieOf proc) = false ->
  usernameOf proc = Some username ->
  truthy username = true ->
  passwordOf proc = Some password ->
  truthy password = true ->
  let st0 := {| this := {| domain := d; baseUrl := d ++ ".trackhs.com";
                           token := None; cookies := [] |};
                world := w |} in
  fst (login net username password st0) = Throw e ->
  main net fuel proc w = (Ok (1, []), snd (login net username password st0)).
Proof.
  intros Hhelp Hdom Hd Hcookie Hu Htu Hp Htp st0 Hlogin.
  rewrite (login_branch net fuel proc w d username password
             Hhelp Hdom Hd Hcookie Hu Htu Hp Htp).
  fold st0. unfold bind.
  destruct (login net username password st0) as [[b|x|] st1];
    cbn [fst snd] in *; try discriminate. reflexivity.
Qed.

Lemma failed_login_stops_run_witness :
  fst (main rejectingPortal 3 envProcess freshWorld) = Ok (1, [])
  /\ map method
       (sent (world (snd (main rejectingPortal 3 envProcess freshWorld))))
     = ["GET"; "POST"].
Proof.
  rewrite (failed_login_stops_run rejectingPortal 3 envProcess freshWorld
             "acme" "owner@example.com" "hunter2"
             (Error "Login failed: Invalid username or password")
             eq_refl eq_refl eq_refl eq_refl eq_refl eq_refl eq_refl eq_refl
             eq_refl).
  split; reflexivity.
Defined.

(** ** Persistence, continued *)

Section Overwrite.

Lemma mem_app (p : string) (a b : list string) :
  mem p (a ++ b) = mem p a || mem p b.
Proof. unfold mem. apply existsb_app. Qed.

Lemma existsb_false {A} (g : A -> bool) (l : list A) :
  existsb g l = false <-> forall x, In x l -> g x = false.
Proof.
  split.
  - intros H x Hx. destruct (g x) eqn:E; [|reflexivity].
    assert (existsb g l = true) by (apply existsb_exists; eauto).
    congruence.
  - intros H. destruct (existsb g l) eqn:E; [|reflexivity].
    apply existsb_exists in E as (x & Hx & Hg). rewrite (H x Hx) in Hg.
    discriminate.
Qed.

Lemma outputDir_in_lineage (proc : Process) :
  In (outputDirOf proc) (lineage (outputDirOf proc)).
Proof.
  destruct (resolve_render (cwd proc)
              (or_else (env proc "OUTPUT_DIR") "output"))
    as (segs & Hdir & Hsegs).
  fold (outputDirOf proc) in Hdir. rewrite Hdir at 1.
  rewrite Hdir, lineage_render by assumption.
  apply in_map, prefixes_self.
Qed.

(** What a successful save found and left. *)
Lemma save_success (proc : Process) (rs : list Reservation)
  (filename : string) (st : State) :
  fst (saveReservations proc rs filename st) = Ok tt ->
  let fs := disk (world st) in
  let target := savePathOf proc filename in
  existsb (is_file fs) (lineage (outputDirOf proc)) = false
  /\ mem target (lineage (outputDirOf proc) ++ dirs fs) = false
  /\ mem (parent_dir target) (lineage (outputDirOf proc) ++ dirs fs) = true
  /\ snd (saveReservations proc rs filename st)
     = with_disk st
         {| dirs := (lineage (outputDirOf proc) ++ dirs fs)%list;
            files := (target, rs)
                     :: filter (fun f => negb (String.eqb (fst f) target))
                          (files fs) |}.
Proof.
  rewrite saveReservations_run. intros H fs target.
  destruct (fs_mkdir_recursive (outputDirOf proc) (disk (world st)))
    as [fs1|e|] eqn:Emk; try discriminate H.
  pose proof (mkdir_result proc _ _ Emk) as ->.
  unfold fs_mkdir_recursive in Emk.
  destruct (is_file (disk (world st)) (outputDirOf proc)); [discriminate|].
  destruct (existsb (is_file (disk (world st))) (lineage (outputDirOf proc)))
    eqn:Efree; [discriminate|].
  unfold fs_writeFile in *. cbn [dirs files] in *. fold fs target in H |- *.
  destruct (mem target (lineage (outputDirOf proc) ++ dirs fs)) eqn:Edir;
    [discriminate H|].
  destruct (mem (parent_dir target) (lineage (outputDirOf proc) ++ dirs fs))
    eqn:Epar; [|discriminate H].
  repeat split; try assumption; reflexivity.
Qed.

End Overwrite.

(** X23: after a successful save, a second save under a file name with
    the same base name, whatever its directories, succeeds and replaces
    the file: the disk then holds one file at that path, with the records
    of the second save, and the files it held besides. *)
Theorem second_save_replaces_first (proc : Process)
  (rs1 rs2 : list Reservation) (f1 f2 : string) (st : State) :
  path_basename f1 = path_basename f2 ->
  fst (saveReservations proc rs1 f1 st) = Ok tt ->
  let st1 := snd (saveReservations proc rs1 f1 st) in
  let r2 := saveReservations proc rs2 f2 st1 in
  savePathOf proc f2 = savePathOf proc f1
  /\ fst r2 = Ok tt
  /\ files (disk (world (snd r2)))
     = (savePathOf proc f1, rs2)
       :: filter (fun f => negb (String.eqb (fst f) (savePathOf proc f1)))
            (files (disk (world st))).
Proof.
  intros Hbase Hfirst st1 r2.
  assert (Hpath : savePathOf proc f2 = savePathOf proc f1)
    by (unfold savePathOf; now rewrite Hbase).
  split; [exact Hpath|].
  destruct (save_success proc rs1 f1 st Hfirst)
    as (Hfree & Hnodir & Hparent & Hst1).
  set (target := savePathOf proc f1) in *.
  set (line := lineage (outputDirOf proc)) in *.
  set (fs := disk (world st)) in *.
  unfold r2, st1. rewrite Hst1, saveReservations_run, Hpath. fold target.
  cbn [with_disk world disk].
  rewrite mem_app in Hnodir. apply orb_false_iff in Hnodir as [Hnl Hnd].
  assert (Hfree2 :
    existsb (is_file {| dirs := (line ++ dirs fs)%list;
                        files := (target, rs1)
                                 :: filter (fun f => negb (String.eqb (fst f)
                                                             target))
                                      (files fs) |}) line = false).
  { apply existsb_false. intros d Hd. unfold is_file, mem. cbn [files map fst].
    cbn [existsb]. apply orb_false_iff. split.
    - destruct (String.eqb d target) eqn:E; [|reflexivity].
      apply String.eqb_eq in E. subst d.
      apply mem_In in Hd. fold line in Hd. congruence.
    - apply existsb_false. intros x Hx.
      apply in_map_iff in Hx as (f & <- & Hf).
      apply filter_In in Hf as [Hf _].
      rewrite existsb_false in Hfree. specialize (Hfree d Hd).
      unfold is_file, mem in Hfree. rewrite existsb_false in Hfree.
      apply Hfree. now apply in_map. }
  unfold fs_mkdir_recursive. fold line. rewrite Hfree2.
  replace (is_file _ (outputDirOf proc)) with false
    by (symmetry; rewrite existsb_false in Hfree2; apply Hfree2;
        apply outputDir_in_lineage).
  unfold fs_writeFile. cbn [dirs files].
  rewrite !mem_app, Hnl, Hnd. cbn [orb].
  rewrite mem_app in Hparent. rewrite Hparent, orb_true_r.
  cbn [negb fst snd with_disk world disk files].
  split; [reflexivity|]. f_equal. cbn [filter fst].
  rewrite String.eqb_refl. cbn [negb]. apply filter_twice.
Qed.

Lemma second_save_replaces_first_witness :
  files (disk (world (snd (saveReservations appProcess [rec2]
                             "archive/2026/reservations.json"
                             (snd (saveReservations appProcess [rec1]
                                     "reservations.json" acmeState))))))
  = [("/app/output/reservations.json", [rec2])].
Proof.
  destruct (second_save_replaces_first appProcess [rec1] [rec2]
              "reservations.json" "archive/2026/reservations.json"
              acmeState eq_refl eq_refl) as (_ & _ & Hfiles).
  rewrite Hfiles. reflexivity.
Defined.

(** ** The cookie jar over a run of headers *)

(** The two properties of [storeCookies] over a run of headers, applied to
    a run of three headers that sets the cookie [a] twice. *)
Lemma storeCookies_unique_witness :
  NoDup (map cookieName
           (storeCookies [] ["a=1; Path=/"; "b=2; HttpOnly"; "a=3"])).
Proof.
  apply storeCookies_unique; [|constructor].
  repeat (constructor; [reflexivity|]). constructor.
Defined.

Lemma storeCookies_latest_witness :
  exists before h after,
    ["a=1; Path=/"; "b=2; HttpOnly"; "a=3"] = (before ++ h :: after)%list
    /\ "a=3" = cookiePair h
    /\ Forall (fun h' => cookieName h' <> cookieName h) after.
Proof.
  apply storeCookies_latest.
  - repeat (constructor; [reflexivity|]). constructor.
  - right. left. reflexivity.
Defined.
